(** * Coroutine.hpp : a thread-backed coroutine, embedded as an interleaving
      transition system.

    The class [EffectivePatterns::Coroutine<YieldValue>] runs a user body on a
    dedicated [std::thread] and alternates with the caller through one
    [std::mutex] and one [std::condition_variable].  The embedding keeps one
    program counter per thread, one step per source statement, and the three
    data members [quit], [canGetValue], [result] as fields of the state.

    [conditionVariable.wait(lock)] is split the way the C++ library defines
    it: release the mutex and block; become runnable when notified (or
    spuriously); re-acquire the mutex before returning.

    The specialisation [Coroutine<void>] (lines 125-207) is embedded the
    same way in module [Void], and related to the general class at [unit]
    by erasing the slot. *)

From Stdlib Require Import List Bool Arith Lia.
Import ListNotations.

Set Implicit Arguments.

(** ** Threads, exceptions and handlers *)

Inductive tid : Type := Caller | Worker.

(** Exceptions that can travel through the body.  [InterruptedException] is
    the private nested class of lines 96-99, publicly derived from
    [std::exception].  A user exception records whether its class derives from
    [std::exception] and a tag naming the class. *)
Inductive exn : Type :=
| InterruptedException
| UserException (std : bool) (tag : nat).

(** The handlers a body can write.  The body cannot name the private class, so
    a typed handler only ever names a user class (or [std::exception]). *)
Inductive handler : Type :=
| CatchAll                      (* catch (...) *)
| CatchStdException             (* catch (const std::exception &) *)
| CatchUser (tag : nat).        (* catch (const T &), T a user class *)

Definition catches (h : handler) (x : exn) : bool :=
  match h, x with
  | CatchAll, _ => true
  | CatchStdException, InterruptedException => true
  | CatchStdException, UserException std _ => std
  | CatchUser _, InterruptedException => false
  | CatchUser t, UserException _ t' => Nat.eqb t t'
  end.

(** ** Program counters *)

(** Constructor, lines 30-36. *)
Inductive ctor_line : Type :=
| CtorLock      (* 32: std::unique_lock lock(mutex) *)
| CtorSpawn     (* 33-34: bind, thread.reset(new std::thread(run)) *)
| CtorWait      (* 35: conditionVariable.wait(lock), about to release *)
| CtorBlocked   (* 35: inside wait, mutex released, not notified *)
| CtorWoken     (* 35: inside wait, unblocked, must re-acquire *)
| CtorRet.      (* 36: lock released on return *)

(** [resume], lines 74-83. *)
Inductive resume_line : Type :=
| RLock         (* 76 *)
| RTest         (* 77-78: assert(!quit); if (!quit) *)
| RNotify       (* 80 *)
| RWait         (* 81, about to release *)
| RBlocked      (* 81, blocked *)
| RWoken        (* 81, unblocked, must re-acquire *)
| RRet.         (* 83 *)

(** Destructor, lines 38-47. *)
Inductive dtor_line : Type :=
| DLock         (* 41 *)
| DQuit         (* 42: quit = true *)
| DCgv          (* 43: canGetValue = false *)
| DUnlock       (* 44 *)
| DNotify       (* 45 *)
| DJoin.        (* 46: thread->join() *)

Inductive cpc : Type :=
| CCtor (l : ctor_line)
| CUser                          (* caller's own code, between two calls *)
| CResume (l : resume_line)
| CDtor (l : dtor_line)
| CDestroyed.

(** [yield], lines 49-60. *)
Inductive yield_line : Type :=
| YLock         (* 51 *)
| YResult       (* 52: result = yieldValue *)
| YCgv          (* 53: canGetValue = true *)
| YNotify       (* 54 *)
| YWait         (* 55, about to release *)
| YBlocked      (* 55, blocked *)
| YWoken        (* 55, unblocked, must re-acquire *)
| YTest         (* 56: if (quit) *)
| YThrow        (* 58: throw InterruptedException() *)
| YRet.         (* 60 *)

(** Tail of [run], lines 118-122. *)
Inductive run_line : Type :=
| ELock         (* 118 *)
| EQuit         (* 119: quit = true *)
| ECgv          (* 120: canGetValue = false *)
| ENotify       (* 121 *)
| ERet.         (* 122 *)

(** What the caller does with the object after constructing it. *)
Inductive op : Type :=
| Resume        (* coroutine.resume() *)
| Get           (* coroutine.get() *)
| IsAlive       (* (bool) coroutine *)
| Destroy.      (* ~Coroutine() *)

(** Ways the whole process stops. *)
Inductive halt : Type :=
| AssertionFailed   (* an assert of lines 64 or 77 fired *)
| Terminated.       (* an exception left the thread function: std::terminate *)

Section Model.

Variable Y : Type.                 (* YieldValue *)

(** ** Bodies *)

(** The body handed to the constructor: straight-line code, yields, throws of
    user exceptions, try/catch blocks and unbounded loops. *)
Inductive stmt : Type :=
| Skip
| Yield (v : Y)                               (* c->yield(v) *)
| Throw (std : bool) (tag : nat)              (* throw T() *)
| Seq (s1 s2 : stmt)
| TryCatch (s : stmt) (h : handler) (hs : stmt)
| Forever (s : stmt).                         (* while (true) s *)

Inductive frame : Type :=
| KSeq (s : stmt)                    (* what follows the current statement *)
| KTry (h : handler) (hs : stmt).    (* an enclosing try block *)

Inductive ctl : Type :=
| Exec (s : stmt)
| Unwind (x : exn).

Inductive wpc : Type :=
| WNotStarted (b : stmt)                       (* before line 34 *)
| WBody (c : ctl) (k : list frame)             (* line 112: inside coroutine() *)
| WYield (l : yield_line) (v : Y) (k : list frame)
| WRunEnd (l : run_line)
| WDone.                                       (* the thread function returned *)

(** What the caller has seen, most recent first. *)
Inductive cev : Type :=
| EvResume                 (* a resume() returned *)
| EvGet (v : Y)            (* get() passed its assertion and returned v *)
| EvGetUnchecked (v : Y)   (* NDEBUG: get() returned v although canGetValue was false *)
| EvAlive (b : bool).      (* operator bool returned b *)

(** ** State *)

Record state : Type := mkState {
  quit : bool;                    (* line 104 *)
  canGetValue : bool;             (* line 105 *)
  result : Y;                     (* line 106 *)
  mutex : option tid;             (* line 103: owner of the mutex *)
  caller : cpc;
  script : list op;               (* the calls the caller still makes *)
  worker : wpc;                   (* line 101: the thread *)
  log : list cev;                 (* history: caller observations *)
  published : list Y;             (* history: values stored by line 52 *)
  halted : option halt
}.

Definition set_quit (b : bool) (s : state) : state :=
  mkState b (canGetValue s) (result s) (mutex s) (caller s) (script s)
          (worker s) (log s) (published s) (halted s).

Definition set_canGetValue (b : bool) (s : state) : state :=
  mkState (quit s) b (result s) (mutex s) (caller s) (script s)
          (worker s) (log s) (published s) (halted s).

Definition set_result (v : Y) (s : state) : state :=
  mkState (quit s) (canGetValue s) v (mutex s) (caller s) (script s)
          (worker s) (log s) (v :: published s) (halted s).

Definition set_mutex (m : option tid) (s : state) : state :=
  mkState (quit s) (canGetValue s) (result s) m (caller s) (script s)
          (worker s) (log s) (published s) (halted s).

Definition set_caller (c : cpc) (s : state) : state :=
  mkState (quit s) (canGetValue s) (result s) (mutex s) c (script s)
          (worker s) (log s) (published s) (halted s).

Definition set_script (sc : list op) (s : state) : state :=
  mkState (quit s) (canGetValue s) (result s) (mutex s) (caller s) sc
          (worker s) (log s) (published s) (halted s).

Definition set_worker (w : wpc) (s : state) : state :=
  mkState (quit s) (canGetValue s) (result s) (mutex s) (caller s) (script s)
          w (log s) (published s) (halted s).

Definition observe (e : cev) (s : state) : state :=
  mkState (quit s) (canGetValue s) (result s) (mutex s) (caller s) (script s)
          (worker s) (e :: log s) (published s) (halted s).

Definition stop (h : halt) (s : state) : state :=
  mkState (quit s) (canGetValue s) (result s) (mutex s) (caller s) (script s)
          (worker s) (log s) (published s) (Some h).

(** ** The mutex and the condition variable *)

(** [mutex.lock()] by thread [t]: enabled only when the mutex is free. *)
Definition lock (t : tid) (s : state) : option state :=
  match mutex s with
  | None => Some (set_mutex (Some t) s)
  | Some _ => None
  end.

Definition unlock (s : state) : state := set_mutex None s.

(** [conditionVariable.notify_all()]: every thread blocked in [wait] becomes
    runnable.  Only the other thread can be blocked. *)
Definition wake_caller (c : cpc) : cpc :=
  match c with
  | CCtor CtorBlocked => CCtor CtorWoken
  | CResume RBlocked => CResume RWoken
  | _ => c
  end.

Definition wake_worker (w : wpc) : wpc :=
  match w with
  | WYield YBlocked v k => WYield YWoken v k
  | _ => w
  end.

Definition notify_all (t : tid) (s : state) : state :=
  match t with
  | Caller => set_worker (wake_worker (worker s)) s
  | Worker => set_caller (wake_caller (caller s)) s
  end.

(** ** Caller side *)

(** Lines 30-36. *)
Definition Coroutine (l : ctor_line) (s : state) : option state :=
  match l with
  | CtorLock => option_map (set_caller (CCtor CtorSpawn)) (lock Caller s)
  | CtorSpawn =>
      match worker s with
      | WNotStarted b =>
          Some (set_caller (CCtor CtorWait) (set_worker (WBody (Exec b) []) s))
      | _ => None
      end
  | CtorWait => Some (set_caller (CCtor CtorBlocked) (unlock s))
  | CtorBlocked => None
  | CtorWoken => option_map (set_caller (CCtor CtorRet)) (lock Caller s)
  | CtorRet => Some (set_caller CUser (unlock s))
  end.

(** Lines 38-47. *)
Definition Coroutine_dtor (l : dtor_line) (s : state) : option state :=
  match l with
  | DLock => option_map (set_caller (CDtor DQuit)) (lock Caller s)
  | DQuit => Some (set_caller (CDtor DCgv) (set_quit true s))
  | DCgv => Some (set_caller (CDtor DUnlock) (set_canGetValue false s))
  | DUnlock => Some (set_caller (CDtor DNotify) (unlock s))
  | DNotify => Some (set_caller (CDtor DJoin) (notify_all Caller s))
  | DJoin =>
      match worker s with
      | WDone => Some (set_caller CDestroyed s)
      | _ => None
      end
  end.

(** Lines 62-66.  [ndebug] tells whether [assert] is compiled out. *)
Inductive get_result : Type :=
| Returned (v : Y)
| GetAssertionFailed.

Definition get (ndebug : bool) (s : state) : get_result :=
  if canGetValue s then Returned (result s)
  else if ndebug then Returned (result s)
  else GetAssertionFailed.

(** Lines 85-88. *)
Definition operator_bool (s : state) : bool := negb (quit s).

(** Lines 74-83. *)
Definition resume (ndebug : bool) (l : resume_line) (s : state) : option state :=
  match l with
  | RLock => option_map (set_caller (CResume RTest)) (lock Caller s)
  | RTest =>
      if quit s then
        if ndebug then Some (set_caller (CResume RRet) s)
        else Some (stop AssertionFailed s)
      else Some (set_caller (CResume RNotify) s)
  | RNotify => Some (set_caller (CResume RWait) (notify_all Caller s))
  | RWait => Some (set_caller (CResume RBlocked) (unlock s))
  | RBlocked => None
  | RWoken => option_map (set_caller (CResume RRet)) (lock Caller s)
  | RRet => Some (observe EvResume (set_caller CUser (unlock s)))
  end.

(** The caller's own code: issue the next call of the script. *)
Definition user (ndebug : bool) (s : state) : option state :=
  match script s with
  | [] => None
  | Resume :: sc => Some (set_caller (CResume RLock) (set_script sc s))
  | Get :: sc =>
      match get ndebug s with
      | Returned v =>
          Some (observe (if canGetValue s then EvGet v else EvGetUnchecked v)
                        (set_script sc s))
      | GetAssertionFailed => Some (stop AssertionFailed (set_script sc s))
      end
  | IsAlive :: sc => Some (observe (EvAlive (operator_bool s)) (set_script sc s))
  | Destroy :: sc => Some (set_caller (CDtor DLock) (set_script sc s))
  end.

Definition step_caller (ndebug : bool) (s : state) : option state :=
  match caller s with
  | CCtor l => Coroutine l s
  | CUser => user ndebug s
  | CResume l => resume ndebug l s
  | CDtor l => Coroutine_dtor l s
  | CDestroyed => None
  end.

(** ** Worker side *)

(** Lines 49-60. *)
Definition yield (l : yield_line) (v : Y) (k : list frame) (s : state)
  : option state :=
  match l with
  | YLock => option_map (set_worker (WYield YResult v k)) (lock Worker s)
  | YResult => Some (set_worker (WYield YCgv v k) (set_result v s))
  | YCgv => Some (set_worker (WYield YNotify v k) (set_canGetValue true s))
  | YNotify => Some (set_worker (WYield YWait v k) (notify_all Worker s))
  | YWait => Some (set_worker (WYield YBlocked v k) (unlock s))
  | YBlocked => None
  | YWoken => option_map (set_worker (WYield YTest v k)) (lock Worker s)
  | YTest =>
      if quit s then Some (set_worker (WYield YThrow v k) s)
      else Some (set_worker (WYield YRet v k) s)
  | YThrow => Some (set_worker (WBody (Unwind InterruptedException) k) (unlock s))
  | YRet => Some (set_worker (WBody (Exec Skip) k) (unlock s))
  end.

(** Line 112: one step of the body. *)
Definition coroutine (c : ctl) (k : list frame) (s : state) : option state :=
  match c, k with
  | Exec Skip, [] => Some (set_worker (WRunEnd ELock) s)
  | Exec Skip, KSeq s2 :: k' => Some (set_worker (WBody (Exec s2) k') s)
  | Exec Skip, KTry _ _ :: k' => Some (set_worker (WBody (Exec Skip) k') s)
  | Exec (Yield v), _ => Some (set_worker (WYield YLock v k) s)
  | Exec (Throw std tag), _ =>
      Some (set_worker (WBody (Unwind (UserException std tag)) k) s)
  | Exec (Seq s1 s2), _ => Some (set_worker (WBody (Exec s1) (KSeq s2 :: k)) s)
  | Exec (TryCatch b h hs), _ =>
      Some (set_worker (WBody (Exec b) (KTry h hs :: k)) s)
  | Exec (Forever b), _ =>
      Some (set_worker (WBody (Exec b) (KSeq (Forever b) :: k)) s)
  | Unwind x, KSeq _ :: k' => Some (set_worker (WBody (Unwind x) k') s)
  | Unwind x, KTry h hs :: k' =>
      if catches h x then Some (set_worker (WBody (Exec hs) k') s)
      else Some (set_worker (WBody (Unwind x) k') s)
  (* lines 114-117: the only handler of run *)
  | Unwind InterruptedException, [] => Some (set_worker WDone s)
  | Unwind (UserException _ _), [] => Some (stop Terminated s)
  end.

(** Lines 118-122. *)
Definition run_end (l : run_line) (s : state) : option state :=
  match l with
  | ELock => option_map (set_worker (WRunEnd EQuit)) (lock Worker s)
  | EQuit => Some (set_worker (WRunEnd ECgv) (set_quit true s))
  | ECgv => Some (set_worker (WRunEnd ENotify) (set_canGetValue false s))
  | ENotify => Some (set_worker (WRunEnd ERet) (notify_all Worker s))
  | ERet => Some (set_worker WDone (unlock s))
  end.

(** Lines 108-122. *)
Definition run (s : state) : option state :=
  match worker s with
  | WNotStarted _ => None
  | WBody c k => coroutine c k s
  | WYield l v k => yield l v k s
  | WRunEnd l => run_end l s
  | WDone => None
  end.

(** ** Interleaving *)

Definition step (ndebug : bool) (t : tid) (s : state) : option state :=
  match halted s with
  | Some _ => None
  | None =>
      match t with
      | Caller => step_caller ndebug s
      | Worker => run s
      end
  end.

(** A [wait] without predicate may return although nobody notified. *)
Definition spurious (t : tid) (s : state) : option state :=
  match halted s with
  | Some _ => None
  | None =>
      match t with
      | Caller =>
          match caller s with
          | CCtor CtorBlocked => Some (set_caller (CCtor CtorWoken) s)
          | CResume RBlocked => Some (set_caller (CResume RWoken) s)
          | _ => None
          end
      | Worker =>
          match worker s with
          | WYield YBlocked v k => Some (set_worker (WYield YWoken v k) s)
          | _ => None
          end
      end
  end.

Inductive event : Type :=
| Step (t : tid)
| Spurious (t : tid).

Definition fire (ndebug : bool) (e : event) (s : state) : option state :=
  match e with
  | Step t => step ndebug t s
  | Spurious t => spurious t s
  end.

Fixpoint exec (ndebug : bool) (es : list event) (s : state) : option state :=
  match es with
  | [] => Some s
  | e :: es' =>
      match fire ndebug e s with
      | Some s' => exec ndebug es' s'
      | None => None
      end
  end.

(** [allowed sp e]: with [sp = false] only handshake executions are taken,
    in which every [wait] returns because of a [notify_all]. *)
Definition allowed (sp : bool) (e : event) : bool :=
  match e with
  | Step _ => true
  | Spurious _ => sp
  end.

Inductive reach (ndebug sp : bool) (s0 : state) : state -> Prop :=
| reach_init : reach ndebug sp s0 s0
| reach_step s e s' :
    reach ndebug sp s0 s -> allowed sp e = true -> fire ndebug e s = Some s' ->
    reach ndebug sp s0 s'.

(** A fixed schedule: the caller runs whenever it can, otherwise the
    worker. *)
Definition sched (ndebug : bool) (s : state) : option state :=
  match step ndebug Caller s with
  | Some s' => Some s'
  | None => step ndebug Worker s
  end.

Fixpoint drive (ndebug : bool) (fuel : nat) (s : state) : state :=
  match fuel with
  | O => s
  | S n =>
      match sched ndebug s with
      | Some s' => drive ndebug n s'
      | None => s
      end
  end.

(** The object at the start of the constructor; [result0] is the
    default-constructed [result]. *)
Definition init (result0 : Y) (b : stmt) (sc : list op) : state :=
  mkState false false result0 None (CCtor CtorLock) sc (WNotStarted b)
          [] [] None.

End Model.

Arguments Skip {Y}.
Arguments Throw {Y}.
Arguments Unwind {Y}.
Arguments WDone {Y}.
Arguments WRunEnd {Y}.
Arguments EvResume {Y}.
Arguments EvAlive {Y}.
Arguments GetAssertionFailed {Y}.

(** ** Derived notions *)

Section Notions.

Variable Y : Type.

(** The two sides' own code: the caller between two calls, the worker inside
    the body (outside [yield]). *)
Definition caller_in_user_code (s : state Y) : bool :=
  match caller s with
  | CUser => true
  | _ => false
  end.

Definition worker_in_user_code (s : state Y) : bool :=
  match worker s with
  | WBody _ _ => true
  | _ => false
  end.

(** Suspended inside [yield], or finished. *)
Definition suspended (w : wpc Y) : bool :=
  match w with
  | WYield YBlocked _ _ => true
  | _ => false
  end.

Definition finished (w : wpc Y) : bool :=
  match w with
  | WDone => true
  | _ => false
  end.

(** Who is between a successful [lock] and the matching release. *)
Definition caller_holds (c : cpc) : bool :=
  match c with
  | CCtor (CtorSpawn | CtorWait | CtorRet) => true
  | CResume (RTest | RNotify | RWait | RRet) => true
  | CDtor (DQuit | DCgv | DUnlock) => true
  | _ => false
  end.

Definition worker_holds (w : wpc Y) : bool :=
  match w with
  | WYield (YResult | YCgv | YNotify | YWait | YTest | YThrow | YRet) _ _ => true
  | WRunEnd (EQuit | ECgv | ENotify | ERet) => true
  | _ => false
  end.

Definition mutex_ok (s : state Y) : Prop :=
  mutex s = (if caller_holds (caller s) then Some Caller
             else if worker_holds (worker s) then Some Worker
             else None)
  /\ (caller_holds (caller s) = true -> worker_holds (worker s) = false).

(** The turn.  While the caller has it the worker is parked; a caller that
    was notified finds the worker on its way to parking. *)
Definition has_turn (c : cpc) : bool :=
  match c with
  | CCtor (CtorLock | CtorSpawn | CtorRet) => true
  | CUser => true
  | CResume (RLock | RTest | RNotify | RRet) => true
  | CDtor (DLock | DQuit | DCgv | DUnlock | DNotify) => true
  | CDestroyed => true
  | _ => false
  end.

Definition notified (c : cpc) : bool :=
  match c with
  | CCtor CtorWoken | CResume RWoken => true
  | _ => false
  end.

Definition before_spawn (c : cpc) : bool :=
  match c with
  | CCtor (CtorLock | CtorSpawn) => true
  | _ => false
  end.

Definition not_started (w : wpc Y) : bool :=
  match w with
  | WNotStarted _ => true
  | _ => false
  end.

Definition parked (w : wpc Y) : bool := suspended w || finished w.

Definition parking (w : wpc Y) : bool :=
  match w with
  | WYield (YWait | YBlocked) _ _ => true
  | WRunEnd ERet => true
  | WDone => true
  | _ => false
  end.

Definition turn_ok (s : state Y) : Prop :=
  before_spawn (caller s) = not_started (worker s)
  /\ (has_turn (caller s) = true -> before_spawn (caller s) = false ->
      parked (worker s) = true)
  /\ (notified (caller s) = true -> parking (worker s) = true).

(** The slot and its history. *)
Definition at_line_53 (w : wpc Y) : bool :=
  match w with
  | WYield YCgv _ _ => true
  | _ => false
  end.

Definition published_ok (result0 : Y) (s : state Y) : Prop :=
  result s = hd result0 (published s)
  /\ (canGetValue s = true \/ at_line_53 (worker s) = true ->
      published s <> []).

(** Once the destructor has executed line 42, [quit] is set. *)
Definition after_line_42 (c : cpc) : bool :=
  match c with
  | CDtor (DCgv | DUnlock | DNotify | DJoin) => true
  | CDestroyed => true
  | _ => false
  end.

Definition dtor_ok (s : state Y) : Prop :=
  after_line_42 (caller s) = true -> quit s = true.

(** Bodies that never intercept the cancellation signal: no handler around
    any statement catches [InterruptedException]. *)
Fixpoint transparent (b : stmt Y) : bool :=
  match b with
  | Skip | Yield _ | Throw _ _ => true
  | Seq s1 s2 => transparent s1 && transparent s2
  | TryCatch b' h hs =>
      negb (catches h InterruptedException) && transparent b' && transparent hs
  | Forever b' => transparent b'
  end.

Definition transparent_frame (f : frame Y) : bool :=
  match f with
  | KSeq s => transparent s
  | KTry h hs => negb (catches h InterruptedException) && transparent hs
  end.

Definition transparent_stack (k : list (frame Y)) : bool :=
  forallb transparent_frame k.

Definition transparent_wpc (w : wpc Y) : bool :=
  match w with
  | WNotStarted b => transparent b
  | WBody (Exec b) k => transparent b && transparent_stack k
  | WBody (Unwind _) k => transparent_stack k
  | WYield _ _ k => transparent_stack k
  | WRunEnd _ | WDone => true
  end.

(** Where the worker can be once [quit] is set, when the signal is not
    intercepted. *)
Definition cancelling (w : wpc Y) : bool :=
  match w with
  | WYield (YBlocked | YWoken | YTest | YThrow) _ _ => true
  | WBody (Unwind InterruptedException) _ => true
  | WRunEnd (ECgv | ENotify | ERet) => true
  | WDone => true
  | _ => false
  end.

Definition flag_ok (s : state Y) : Prop :=
  quit s = true ->
  cancelling (worker s) = true
  /\ (canGetValue s = true ->
      worker s = WRunEnd ECgv \/ caller s = CDtor DCgv).

(** Bodies made of yields only. *)
Fixpoint straight (b : stmt Y) : bool :=
  match b with
  | Skip | Yield _ => true
  | Seq s1 s2 => straight s1 && straight s2
  | Throw _ _ | TryCatch _ _ _ | Forever _ => false
  end.

Definition straight_frame (f : frame Y) : bool :=
  match f with
  | KSeq s => straight s
  | KTry _ _ => false
  end.

Definition straight_stack (k : list (frame Y)) : bool :=
  forallb straight_frame k.

Definition straight_wpc (w : wpc Y) : bool :=
  match w with
  | WNotStarted b => straight b
  | WBody (Exec b) k => straight b && straight_stack k
  | WBody (Unwind _) k => straight_stack k
  | WYield _ _ k => straight_stack k
  | WRunEnd _ | WDone => true
  end.

(** A measure that every step of straight code decreases. *)
Fixpoint weight (b : stmt Y) : nat :=
  match b with
  | Seq s1 s2 => 2 + weight s1 + weight s2
  | _ => 1
  end.

Definition weight_frame (f : frame Y) : nat :=
  match f with
  | KSeq s => 1 + weight s
  | KTry _ _ => 1
  end.

Fixpoint weight_stack (k : list (frame Y)) : nat :=
  match k with
  | [] => 0
  | f :: k' => weight_frame f + weight_stack k'
  end.

(** The values a straight body passes to [yield], in program order. *)
Fixpoint yields_of (b : stmt Y) : list Y :=
  match b with
  | Skip | Throw _ _ => []
  | Yield v => [v]
  | Seq s1 s2 => yields_of s1 ++ yields_of s2
  | TryCatch b' _ _ => yields_of b'
  | Forever b' => yields_of b'
  end.

Definition yields_of_frame (f : frame Y) : list Y :=
  match f with
  | KSeq s => yields_of s
  | KTry _ _ => []
  end.

Definition yields_of_stack (k : list (frame Y)) : list Y :=
  flat_map yields_of_frame k.

(** What the worker has still to store with line 52. *)
Definition pending (w : wpc Y) : list Y :=
  match w with
  | WNotStarted b => yields_of b
  | WBody (Exec b) k => yields_of b ++ yields_of_stack k
  | WBody (Unwind _) _ => []
  | WYield (YLock | YResult) v k => v :: yields_of_stack k
  | WYield _ _ k => yields_of_stack k
  | WRunEnd _ | WDone => []
  end.

(** Where a worker running a straight body can be while [quit] is false. *)
Definition live (w : wpc Y) : bool :=
  match w with
  | WYield YThrow _ _ => false
  | WBody (Unwind _) _ => false
  | WRunEnd (ECgv | ENotify | ERet) => false
  | WDone => false
  | _ => true
  end.

Fixpoint resumes (l : list (cev Y)) : nat :=
  match l with
  | [] => 0
  | EvResume :: l' => S (resumes l')
  | _ :: l' => resumes l'
  end.

(** Turns handed to the worker so far: one by the constructor's wait, one by
    each notify of line 80. *)
Definition grants (c : cpc) (r : nat) : nat :=
  match c with
  | CCtor (CtorLock | CtorSpawn) => 0
  | CCtor _ => 1
  | CUser => r + 1
  | CResume (RLock | RTest | RNotify) => r + 1
  | CResume _ => r + 2
  | CDtor _ | CDestroyed => r + 1
  end.

Definition has_published (w : wpc Y) : bool :=
  match w with
  | WYield (YCgv | YNotify | YWait | YBlocked) _ _ => true
  | _ => false
  end.

Definition count_ok (s : state Y) : Prop :=
  quit s = false ->
  if not_started (worker s) then published s = []
  else length (published s) + (if has_published (worker s) then 0 else 1)
       = grants (caller s) (resumes (log s)).

(** Every checked [get] returned the value whose index is the number of
    resumes that had returned before it. *)
Fixpoint log_ok (vs : list Y) (l : list (cev Y)) : Prop :=
  match l with
  | [] => True
  | EvGet v :: l' => nth_error vs (resumes l') = Some v /\ log_ok vs l'
  | _ :: l' => log_ok vs l'
  end.

Definition in_ctor (c : cpc) : bool :=
  match c with
  | CCtor _ => true
  | _ => false
  end.

Definition order_ok (vs : list Y) (s : state Y) : Prop :=
  (in_ctor (caller s) = true -> log s = [])
  /\ (quit s = false -> live (worker s) = true)
  /\ (quit s = false -> rev (published s) ++ pending (worker s) = vs)
  /\ count_ok s
  /\ log_ok vs (log s).

(** The values returned by the checked [get]s, oldest first. *)
Fixpoint gets (l : list (cev Y)) : list Y :=
  match l with
  | [] => []
  | EvGet v :: l' => gets l' ++ [v]
  | _ :: l' => gets l'
  end.

(** The states an execution goes through, and how often a flag rises or
    falls along them. *)
Fixpoint trace (ndebug : bool) (es : list event) (s : state Y)
  : list (state Y) :=
  s :: match es with
       | [] => []
       | e :: es' =>
           match fire ndebug e s with
           | Some s' => trace ndebug es' s'
           | None => []
           end
       end.

Fixpoint rises (l : list bool) : nat :=
  match l with
  | a :: (b :: _) as l' => (if negb a && b then 1 else 0) + rises l'
  | _ => 0
  end.

Fixpoint falls (l : list bool) : nat :=
  match l with
  | a :: (b :: _) as l' => (if a && negb b then 1 else 0) + falls l'
  | _ => 0
  end.

(** Executions in which no [wait] returns spuriously. *)
Definition handshake (es : list event) : bool := forallb (allowed false) es.

(** The events the fixed schedule [drive] fires. *)
Fixpoint schedule_of (ndebug : bool) (fuel : nat) (s : state Y) : list event :=
  match fuel with
  | O => []
  | S n =>
      match step ndebug Caller s with
      | Some s' => Step Caller :: schedule_of ndebug n s'
      | None =>
          match step ndebug Worker s with
          | Some s' => Step Worker :: schedule_of ndebug n s'
          | None => []
          end
      end
  end.

(** Once [quit] is set by the worker, or the signal thrown, [quit] is set. *)
Definition past_quit (w : wpc Y) : bool :=
  match w with
  | WYield YThrow _ _ => true
  | WBody (Unwind InterruptedException) _ => true
  | WRunEnd (ECgv | ENotify | ERet) => true
  | WDone => true
  | _ => false
  end.

Definition finished_ok (s : state Y) : Prop :=
  past_quit (worker s) = true -> quit s = true.

(** The two assignments [quit = true]: line 119 and line 42. *)
Definition sets_quit (e : event) (s : state Y) : bool :=
  match e with
  | Step Worker =>
      match worker s with WRunEnd EQuit => true | _ => false end
  | Step Caller =>
      match caller s with CDtor DQuit => true | _ => false end
  | Spurious _ => false
  end.

(** The body that yields the given values and then runs [tail]. *)
Fixpoint yielding (vs : list Y) (tail : stmt Y) : stmt Y :=
  match vs with
  | [] => tail
  | v :: vs' => Seq (Yield v) (yielding vs' tail)
  end.

(** Drivers: [n] times resume-then-get, and [n] times get-then-resume. *)
Fixpoint resume_get (n : nat) : list op :=
  match n with
  | O => []
  | S n' => Resume :: Get :: resume_get n'
  end.

Fixpoint get_resume (n : nat) : list op :=
  match n with
  | O => []
  | S n' => Get :: Resume :: get_resume n'
  end.

(** What [resume] adds to the caller's history when it returns. *)
Definition ret_log (cb : cpc) (lg : list (cev Y)) : list (cev Y) :=
  match cb with
  | CResume _ => EvResume :: lg
  | _ => lg
  end.

Definition blocked_caller (cb : cpc) : Prop :=
  cb = CCtor CtorBlocked \/ cb = CResume RBlocked.

(** Where a worker running straight code [b] above the frames [kb] gets to
    while the caller is blocked: parked at its next [yield], or at the end of
    the straight code. *)
Definition burst_result (cb : cpc) (sc : list op) (lg : list (cev Y))
    (pb : list Y) (g : bool) (r : Y) (kb : list (frame Y)) (vs : list Y)
    (s' : state Y) : Prop :=
  match vs with
  | [] => s' = mkState false g r None cb sc (WBody (Exec Skip) kb) lg pb None
  | v :: rest =>
      exists k', straight_stack k' = true /\ yields_of_stack k' = rest
        /\ s' = mkState false true v None CUser sc
                  (WYield YBlocked v (k' ++ kb)) (ret_log cb lg) (v :: pb) None
  end.

End Notions.

(** ** Sample programs *)

(** Example A of the documentation: yields 1, 2, 3 and returns. *)
Definition body_123 : stmt nat := yielding [1; 2; 3] Skip.

(** Yields twice, then throws a user exception derived from
    [std::exception]. *)
Definition body_throw : stmt nat := yielding [1; 2] (Throw true 7).

(** Protects a yield with [catch (const std::exception &)], reports through a
    second yield. *)
Definition body_catch : stmt nat :=
  Seq (TryCatch (Yield 1) CatchStdException (Yield 5)) (Yield 2).

(** Yields once. *)
Definition body_one : stmt nat := Yield 1.

(** Returns without yielding. *)
Definition body_none : stmt nat := Skip.

(** The constructor's schedule in which line 35 returns spuriously before the
    worker thread has run. *)
Definition early_return : list event :=
  [Step Caller; Step Caller; Step Caller; Spurious Caller;
   Step Caller; Step Caller].

(** A schedule of [body_123] driven by one [resume]: the handshake up to the
    point where the worker is back in the body, then line 81 returns
    spuriously. *)
Definition late_overlap : list event :=
  [Step Caller; Step Caller; Step Caller;
   Step Worker; Step Worker; Step Worker; Step Worker; Step Worker;
   Step Worker; Step Worker;
   Step Caller; Step Caller;
   Step Caller; Step Caller; Step Caller; Step Caller; Step Caller;
   Step Worker; Step Worker; Step Worker; Step Worker;
   Spurious Caller; Step Caller; Step Caller].

(** The fixed schedule applied to sample programs. *)
Definition start_resume_first : state nat := init 0 body_123 (resume_get 3).
Definition resume_first : state nat := drive false 100 start_resume_first.

Definition start_thrown : state nat := init 0 body_throw [Resume; Resume; Resume].
Definition thrown : state nat := drive false 100 start_thrown.

Definition start_catch : state nat := init 0 body_catch [Get; Destroy].
Definition after_catch : state nat := drive false 100 start_catch.

Definition start_get_first : state nat :=
  init 0 body_123 [Get; Resume; Get; Destroy].
Definition get_first : state nat := drive false 100 start_get_first.

(** [body_123] after its constructor, with three [get]s to come. *)
Definition three_gets_reached : state nat :=
  drive false 13 (init 0 body_123 [Get; Get; Get; Resume]).

(** [body_123] read and resumed to its end with assertions compiled out,
    then read once more. *)
Definition start_stale : state nat := init 0 body_123 (get_resume 3 ++ [Get]).
Definition finished_unread : state nat := drive true 68 start_stale.
Definition stale_read : state nat := drive true 100 start_stale.


(** A finished coroutine whose caller is about to call [resume]. *)
Definition resumed_too_late : state nat :=
  mkState true false 3 None CUser [Resume; IsAlive] WDone
          [EvResume; EvGet 2; EvResume; EvGet 1] [3; 2; 1] None.

(** A suspended coroutine whose caller is about to call [get] three times. *)
Definition three_gets : state nat :=
  mkState false true 1 None CUser [Get; Get; Get; Resume]
          (WYield YBlocked 1 [KSeq (Yield 2)]) [] [1] None.

(** ** Further notions *)

Section MoreNotions.

Variable Y : Type.

Definition in_dtor (c : cpc) : bool :=
  match c with
  | CDtor _ | CDestroyed => true
  | _ => false
  end.

(** The worker has executed line 119. *)
Definition past_line_119 (w : wpc Y) : bool :=
  match w with
  | WRunEnd (ECgv | ENotify | ERet) => true
  | WDone => true
  | _ => false
  end.

(** While the destructor has not executed line 42, a set [quit] was set by
    line 119, and [canGetValue] is cleared right after. *)
Definition alive_ok (s : state Y) : Prop :=
  quit s = true -> after_line_42 (caller s) = false ->
  past_line_119 (worker s) = true
  /\ (canGetValue s = true -> worker s = WRunEnd ECgv).

(** The signal is only thrown once the destructor has executed line 42. *)
Definition throwing (w : wpc Y) : bool :=
  match w with
  | WYield YThrow _ _ => true
  | WBody (Unwind InterruptedException) _ => true
  | _ => false
  end.

Definition throw_ok (s : state Y) : Prop :=
  throwing (worker s) = true -> after_line_42 (caller s) = true.

(** Inside [yield (v)], after line 52. *)
Definition stored (w : wpc Y) : option Y :=
  match w with
  | WYield (YLock | YResult) _ _ => None
  | WYield _ v _ => Some v
  | _ => None
  end.

Definition flagged (w : wpc Y) : bool :=
  match w with
  | WYield (YNotify | YWait | YBlocked) _ _ => true
  | _ => false
  end.

Definition slot_ok (s : state Y) : Prop :=
  (forall v, stored (worker s) = Some v -> hd_error (published s) = Some v)
  /\ (flagged (worker s) = true -> quit s = false -> canGetValue s = true).

(** Between the start of the constructor and the caller's first
    observation. *)
Definition fresh (s : state Y) : bool :=
  match caller s, log s with
  | CCtor _, _ => true
  | CUser, [] => true
  | _, _ => false
  end.

Definition resumed (w : wpc Y) : bool :=
  match w with
  | WYield (YWoken | YTest | YThrow | YRet) _ _ => true
  | _ => false
  end.

(** During its first turn the worker has stored at most the value of the
    [yield] it is in. *)
Definition first_turn_ok (s : state Y) : Prop :=
  fresh s = true ->
  log s = [] /\ resumed (worker s) = false
  /\ published s = match stored (worker s) with
                   | Some v => [v]
                   | None => []
                   end.

(** Where the worker is while the caller waits for it: it can run, and it
    has not yet notified. *)
Definition waits_for_worker (c : cpc) : bool :=
  match c with
  | CCtor (CtorWait | CtorBlocked) => true
  | CResume (RWait | RBlocked) => true
  | _ => false
  end.

Definition running (w : wpc Y) : bool :=
  match w with
  | WBody _ _ => true
  | WYield (YLock | YResult | YCgv | YNotify | YWoken | YTest | YThrow | YRet)
           _ _ => true
  | WRunEnd (ELock | EQuit | ECgv | ENotify) => true
  | _ => false
  end.

Definition unwinding (w : wpc Y) : bool :=
  match w with
  | WYield (YWoken | YTest | YThrow) _ _ => true
  | WBody (Unwind InterruptedException) _ => true
  | WDone => true
  | _ => false
  end.

Definition wake_ok (s : state Y) : Prop :=
  (waits_for_worker (caller s) = true -> running (worker s) = true)
  /\ (caller s = CResume RNotify -> suspended (worker s) = true).

Definition join_ok (s : state Y) : Prop :=
  caller s = CDtor DJoin -> unwinding (worker s) = true.

(** The caller has nothing left to do. *)
Definition caller_done (s : state Y) : bool :=
  match caller s, script s with
  | CUser, [] => true
  | CDestroyed, _ => true
  | _, _ => false
  end.

(** The joined thread: once the destructor has returned the thread function
    has returned. *)
Definition joined_ok (s : state Y) : Prop :=
  caller s = CDestroyed -> worker s = WDone.

End MoreNotions.

Section LoopNotions.

Variable Y : Type.

(** Once a straight body with [n] yields has finished, at least [n] turns
    were handed over. *)
Definition done_ok (n : nat) (s : state Y) : Prop :=
  quit s = true -> after_line_42 (caller s) = false ->
  n + 1 <= grants (caller s) (resumes (log s)).

(** The loop [while (coroutine) coroutine.resume();] unrolled [n] times. *)
Fixpoint alive_resume (n : nat) : list op :=
  match n with
  | O => []
  | S n' => IsAlive :: Resume :: alive_resume n'
  end.

(** The liveness checks seen by the caller, oldest first. *)
Fixpoint alives (l : list (cev Y)) : list bool :=
  match l with
  | [] => []
  | EvAlive b :: l' => alives l' ++ [b]
  | _ :: l' => alives l'
  end.

End LoopNotions.

(** * The specialisation [Coroutine<void>], lines 125-207

    The same class without the slot: no [result], no [canGetValue], no
    [get]; [yield] takes no argument.  Bodies are statements over [unit],
    [Yield tt] standing for [c->yield()].  The constructor and [resume] have
    the text of the general class and reuse its program counters. *)

Module Void.

(** [yield], lines 150-159. *)
Inductive yield_line : Type :=
| YLock         (* 152 *)
| YNotify       (* 153 *)
| YWait         (* 154, about to release *)
| YBlocked      (* 154, blocked *)
| YWoken        (* 154, unblocked, must re-acquire *)
| YTest         (* 155: if (quit) *)
| YThrow        (* 157: throw InterruptedException() *)
| YRet.         (* 159 *)

(** Tail of [run], lines 203-206. *)
Inductive run_line : Type :=
| ELock         (* 203 *)
| EQuit         (* 204: quit = true *)
| ENotify       (* 205 *)
| ERet.         (* 206 *)

(** Destructor, lines 140-148. *)
Inductive dtor_line : Type :=
| DLock         (* 143 *)
| DQuit         (* 144: quit = true *)
| DUnlock       (* 145 *)
| DNotify       (* 146 *)
| DJoin.        (* 147: thread->join() *)

Inductive cpc : Type :=
| CCtor (l : ctor_line)          (* lines 132-138 *)
| CUser
| CResume (l : resume_line)      (* lines 161-170 *)
| CDtor (l : dtor_line)
| CDestroyed.

Inductive op : Type :=
| Resume        (* coroutine.resume() *)
| IsAlive       (* (bool) coroutine *)
| Destroy.      (* ~Coroutine() *)

Inductive wpc : Type :=
| WNotStarted (b : stmt unit)                  (* before line 136 *)
| WBody (c : ctl unit) (k : list (frame unit)) (* line 197 *)
| WYield (l : yield_line) (k : list (frame unit))
| WRunEnd (l : run_line)
| WDone.

Inductive cev : Type :=
| EvResume                 (* a resume() returned *)
| EvAlive (b : bool).      (* operator bool returned b *)

Record state : Type := mkState {
  quit : bool;                    (* line 191 *)
  mutex : option tid;             (* line 190 *)
  caller : cpc;
  script : list op;
  worker : wpc;                   (* line 188 *)
  log : list cev;
  halted : option halt
}.

Definition set_quit (b : bool) (s : state) : state :=
  mkState b (mutex s) (caller s) (script s) (worker s) (log s) (halted s).

Definition set_mutex (m : option tid) (s : state) : state :=
  mkState (quit s) m (caller s) (script s) (worker s) (log s) (halted s).

Definition set_caller (c : cpc) (s : state) : state :=
  mkState (quit s) (mutex s) c (script s) (worker s) (log s) (halted s).

Definition set_script (sc : list op) (s : state) : state :=
  mkState (quit s) (mutex s) (caller s) sc (worker s) (log s) (halted s).

Definition set_worker (w : wpc) (s : state) : state :=
  mkState (quit s) (mutex s) (caller s) (script s) w (log s) (halted s).

Definition observe (e : cev) (s : state) : state :=
  mkState (quit s) (mutex s) (caller s) (script s) (worker s) (e :: log s)
          (halted s).

Definition stop (h : halt) (s : state) : state :=
  mkState (quit s) (mutex s) (caller s) (script s) (worker s) (log s)
          (Some h).

Definition lock (t : tid) (s : state) : option state :=
  match mutex s with
  | None => Some (set_mutex (Some t) s)
  | Some _ => None
  end.

Definition unlock (s : state) : state := set_mutex None s.

Definition wake_caller (c : cpc) : cpc :=
  match c with
  | CCtor CtorBlocked => CCtor CtorWoken
  | CResume RBlocked => CResume RWoken
  | _ => c
  end.

Definition wake_worker (w : wpc) : wpc :=
  match w with
  | WYield YBlocked k => WYield YWoken k
  | _ => w
  end.

Definition notify_all (t : tid) (s : state) : state :=
  match t with
  | Caller => set_worker (wake_worker (worker s)) s
  | Worker => set_caller (wake_caller (caller s)) s
  end.

(** Lines 132-138. *)
Definition Coroutine (l : ctor_line) (s : state) : option state :=
  match l with
  | CtorLock => option_map (set_caller (CCtor CtorSpawn)) (lock Caller s)
  | CtorSpawn =>
      match worker s with
      | WNotStarted b =>
          Some (set_caller (CCtor CtorWait) (set_worker (WBody (Exec b) []) s))
      | _ => None
      end
  | CtorWait => Some (set_caller (CCtor CtorBlocked) (unlock s))
  | CtorBlocked => None
  | CtorWoken => option_map (set_caller (CCtor CtorRet)) (lock Caller s)
  | CtorRet => Some (set_caller CUser (unlock s))
  end.

(** Lines 140-148. *)
Definition Coroutine_dtor (l : dtor_line) (s : state) : option state :=
  match l with
  | DLock => option_map (set_caller (CDtor DQuit)) (lock Caller s)
  | DQuit => Some (set_caller (CDtor DUnlock) (set_quit true s))
  | DUnlock => Some (set_caller (CDtor DNotify) (unlock s))
  | DNotify => Some (set_caller (CDtor DJoin) (notify_all Caller s))
  | DJoin =>
      match worker s with
      | WDone => Some (set_caller CDestroyed s)
      | _ => None
      end
  end.

(** Lines 172-175. *)
Definition operator_bool (s : state) : bool := negb (quit s).

(** Lines 161-170. *)
Definition resume (ndebug : bool) (l : resume_line) (s : state) : option state :=
  match l with
  | RLock => option_map (set_caller (CResume RTest)) (lock Caller s)
  | RTest =>
      if quit s then
        if ndebug then Some (set_caller (CResume RRet) s)
        else Some (stop AssertionFailed s)
      else Some (set_caller (CResume RNotify) s)
  | RNotify => Some (set_caller (CResume RWait) (notify_all Caller s))
  | RWait => Some (set_caller (CResume RBlocked) (unlock s))
  | RBlocked => None
  | RWoken => option_map (set_caller (CResume RRet)) (lock Caller s)
  | RRet => Some (observe EvResume (set_caller CUser (unlock s)))
  end.

Definition user (s : state) : option state :=
  match script s with
  | [] => None
  | Resume :: sc => Some (set_caller (CResume RLock) (set_script sc s))
  | IsAlive :: sc => Some (observe (EvAlive (operator_bool s)) (set_script sc s))
  | Destroy :: sc => Some (set_caller (CDtor DLock) (set_script sc s))
  end.

Definition step_caller (ndebug : bool) (s : state) : option state :=
  match caller s with
  | CCtor l => Coroutine l s
  | CUser => user s
  | CResume l => resume ndebug l s
  | CDtor l => Coroutine_dtor l s
  | CDestroyed => None
  end.

(** Lines 150-159. *)
Definition yield (l : yield_line) (k : list (frame unit)) (s : state)
  : option state :=
  match l with
  | YLock => option_map (set_worker (WYield YNotify k)) (lock Worker s)
  | YNotify => Some (set_worker (WYield YWait k) (notify_all Worker s))
  | YWait => Some (set_worker (WYield YBlocked k) (unlock s))
  | YBlocked => None
  | YWoken => option_map (set_worker (WYield YTest k)) (lock Worker s)
  | YTest =>
      if quit s then Some (set_worker (WYield YThrow k) s)
      else Some (set_worker (WYield YRet k) s)
  | YThrow => Some (set_worker (WBody (Unwind InterruptedException) k) (unlock s))
  | YRet => Some (set_worker (WBody (Exec Skip) k) (unlock s))
  end.

(** Line 197: one step of the body. *)
Definition coroutine (c : ctl unit) (k : list (frame unit)) (s : state)
  : option state :=
  match c, k with
  | Exec Skip, [] => Some (set_worker (WRunEnd ELock) s)
  | Exec Skip, KSeq s2 :: k' => Some (set_worker (WBody (Exec s2) k') s)
  | Exec Skip, KTry _ _ :: k' => Some (set_worker (WBody (Exec Skip) k') s)
  | Exec (Yield _), _ => Some (set_worker (WYield YLock k) s)
  | Exec (Throw std tag), _ =>
      Some (set_worker (WBody (Unwind (UserException std tag)) k) s)
  | Exec (Seq s1 s2), _ => Some (set_worker (WBody (Exec s1) (KSeq s2 :: k)) s)
  | Exec (TryCatch b h hs), _ =>
      Some (set_worker (WBody (Exec b) (KTry h hs :: k)) s)
  | Exec (Forever b), _ =>
      Some (set_worker (WBody (Exec b) (KSeq (Forever b) :: k)) s)
  | Unwind x, KSeq _ :: k' => Some (set_worker (WBody (Unwind x) k') s)
  | Unwind x, KTry h hs :: k' =>
      if catches h x then Some (set_worker (WBody (Exec hs) k') s)
      else Some (set_worker (WBody (Unwind x) k') s)
  (* lines 199-202: the only handler of run *)
  | Unwind InterruptedException, [] => Some (set_worker WDone s)
  | Unwind (UserException _ _), [] => Some (stop Terminated s)
  end.

(** Lines 203-206. *)
Definition run_end (l : run_line) (s : state) : option state :=
  match l with
  | ELock => option_map (set_worker (WRunEnd EQuit)) (lock Worker s)
  | EQuit => Some (set_worker (WRunEnd ENotify) (set_quit true s))
  | ENotify => Some (set_worker (WRunEnd ERet) (notify_all Worker s))
  | ERet => Some (set_worker WDone (unlock s))
  end.

(** Lines 193-206. *)
Definition run (s : state) : option state :=
  match worker s with
  | WNotStarted _ => None
  | WBody c k => coroutine c k s
  | WYield l k => yield l k s
  | WRunEnd l => run_end l s
  | WDone => None
  end.

Definition step (ndebug : bool) (t : tid) (s : state) : option state :=
  match halted s with
  | Some _ => None
  | None =>
      match t with
      | Caller => step_caller ndebug s
      | Worker => run s
      end
  end.

Definition spurious (t : tid) (s : state) : option state :=
  match halted s with
  | Some _ => None
  | None =>
      match t with
      | Caller =>
          match caller s with
          | CCtor CtorBlocked => Some (set_caller (CCtor CtorWoken) s)
          | CResume RBlocked => Some (set_caller (CResume RWoken) s)
          | _ => None
          end
      | Worker =>
          match worker s with
          | WYield YBlocked k => Some (set_worker (WYield YWoken k) s)
          | _ => None
          end
      end
  end.

Definition fire (ndebug : bool) (e : event) (s : state) : option state :=
  match e with
  | Step t => step ndebug t s
  | Spurious t => spurious t s
  end.

Fixpoint exec (ndebug : bool) (es : list event) (s : state) : option state :=
  match es with
  | [] => Some s
  | e :: es' =>
      match fire ndebug e s with
      | Some s' => exec ndebug es' s'
      | None => None
      end
  end.

Definition sched (ndebug : bool) (s : state) : option state :=
  match step ndebug Caller s with
  | Some s' => Some s'
  | None => step ndebug Worker s
  end.

Fixpoint drive (ndebug : bool) (fuel : nat) (s : state) : state :=
  match fuel with
  | O => s
  | S n =>
      match sched ndebug s with
      | Some s' => drive ndebug n s'
      | None => s
      end
  end.

Definition init (b : stmt unit) (sc : list op) : state :=
  mkState false None (CCtor CtorLock) sc (WNotStarted b) [] None.

(** The events the fixed schedule [drive] fires. *)
Fixpoint schedule_of (ndebug : bool) (fuel : nat) (s : state) : list event :=
  match fuel with
  | O => []
  | S n =>
      match step ndebug Caller s with
      | Some s' => Step Caller :: schedule_of ndebug n s'
      | None =>
          match step ndebug Worker s with
          | Some s' => Step Worker :: schedule_of ndebug n s'
          | None => []
          end
      end
  end.

Definition caller_in_user_code (s : state) : bool :=
  match caller s with
  | CUser => true
  | _ => false
  end.

Definition worker_in_user_code (s : state) : bool :=
  match worker s with
  | WBody _ _ => true
  | _ => false
  end.

Fixpoint resumes (l : list cev) : nat :=
  match l with
  | [] => 0
  | EvResume :: l' => S (resumes l')
  | _ :: l' => resumes l'
  end.

(** The liveness checks seen by the caller, oldest first. *)
Fixpoint alives (l : list cev) : list bool :=
  match l with
  | [] => []
  | EvAlive b :: l' => alives l' ++ [b]
  | _ :: l' => alives l'
  end.

(** The loop [while (coroutine) coroutine.resume();] unrolled [n] times. *)
Fixpoint alive_resume (n : nat) : list op :=
  match n with
  | O => []
  | S n' => IsAlive :: Resume :: alive_resume n'
  end.

End Void.

(** ** The general class seen without its slot *)

Definition erase_cpc (c : cpc) : Void.cpc :=
  match c with
  | CCtor l => Void.CCtor l
  | CUser => Void.CUser
  | CResume l => Void.CResume l
  | CDtor DLock => Void.CDtor Void.DLock
  | CDtor DQuit => Void.CDtor Void.DQuit
  | CDtor (DCgv | DUnlock) => Void.CDtor Void.DUnlock
  | CDtor DNotify => Void.CDtor Void.DNotify
  | CDtor DJoin => Void.CDtor Void.DJoin
  | CDestroyed => Void.CDestroyed
  end.

Definition erase_yield_line (l : yield_line) : Void.yield_line :=
  match l with
  | YLock => Void.YLock
  | YResult | YCgv | YNotify => Void.YNotify
  | YWait => Void.YWait
  | YBlocked => Void.YBlocked
  | YWoken => Void.YWoken
  | YTest => Void.YTest
  | YThrow => Void.YThrow
  | YRet => Void.YRet
  end.

Definition erase_run_line (l : run_line) : Void.run_line :=
  match l with
  | ELock => Void.ELock
  | EQuit => Void.EQuit
  | ECgv | ENotify => Void.ENotify
  | ERet => Void.ERet
  end.

Definition erase_wpc (w : wpc unit) : Void.wpc :=
  match w with
  | WNotStarted b => Void.WNotStarted b
  | WBody c k => Void.WBody c k
  | WYield l _ k => Void.WYield (erase_yield_line l) k
  | WRunEnd l => Void.WRunEnd (erase_run_line l)
  | WDone => Void.WDone
  end.

Fixpoint erase_script (sc : list op) : list Void.op :=
  match sc with
  | [] => []
  | Resume :: sc' => Void.Resume :: erase_script sc'
  | IsAlive :: sc' => Void.IsAlive :: erase_script sc'
  | Destroy :: sc' => Void.Destroy :: erase_script sc'
  | Get :: sc' => erase_script sc'
  end.

Fixpoint erase_log (l : list (cev unit)) : list Void.cev :=
  match l with
  | [] => []
  | EvResume :: l' => Void.EvResume :: erase_log l'
  | EvAlive b :: l' => Void.EvAlive b :: erase_log l'
  | _ :: l' => erase_log l'
  end.

Definition erase (s : state unit) : Void.state :=
  Void.mkState (quit s) (mutex s) (erase_cpc (caller s))
               (erase_script (script s)) (erase_wpc (worker s))
               (erase_log (log s)) (halted s).

Fixpoint embed_script (sc : list Void.op) : list op :=
  match sc with
  | [] => []
  | Void.Resume :: sc' => Resume :: embed_script sc'
  | Void.IsAlive :: sc' => IsAlive :: embed_script sc'
  | Void.Destroy :: sc' => Destroy :: embed_script sc'
  end.

(** Scripts that never call [get]. *)
Definition get_free (sc : list op) : bool :=
  forallb (fun o => match o with Get => false | _ => true end) sc.

Definition thread_of (e : event) : tid :=
  match e with
  | Step t | Spurious t => t
  end.

(** The writes to the slot a thread has still to do before its next step
    that the specialisation has too. *)
Definition slot_steps (t : tid) (s : state unit) : nat :=
  match t with
  | Caller =>
      match caller s with
      | CDtor DCgv => 1
      | _ => 0
      end
  | Worker =>
      match worker s with
      | WYield YResult _ _ => 2
      | WYield YCgv _ _ => 1
      | WRunEnd ECgv => 1
      | _ => 0
      end
  end.

(** ** Further sample programs *)

(** [body_123] constructed, checked, read, resumed once, checked and
    destroyed, under the fixed schedule. *)
Definition start_tour : state nat :=
  init 0 body_123 [IsAlive; Get; Resume; IsAlive; Destroy].

(** ... with the worker at line 53 of its first [yield]. *)
Definition tour_in_yield : state nat := drive false 7 start_tour.

(** ... when the constructor has just returned. *)
Definition tour_constructed : state nat := drive false 12 start_tour.

(** ... with the caller blocked at line 81 and the worker in the body. *)
Definition tour_waiting : state nat := drive false 23 start_tour.

(** ... when [resume] has just returned. *)
Definition tour_resumed : state nat := drive false 32 start_tour.

(** ... when the destructor has returned. *)
Definition tour_end : state nat := drive false 100 start_tour.


(** A body with five suspension points and no value. *)
Definition body_5 : stmt unit := yielding [tt; tt; tt; tt; tt] Skip.

Definition void_start : Void.state :=
  Void.init body_5 [Void.IsAlive; Void.Resume; Void.IsAlive; Void.Destroy].

Definition void_resumed : Void.state := Void.drive false 27 void_start.

Definition void_end : Void.state := Void.drive false 100 void_start.

Definition void_finished : Void.state :=
  Void.mkState true None Void.CUser [Void.Resume; Void.IsAlive] Void.WDone
               [Void.EvResume] None.


(** The general class at [unit], driven by the same calls. *)
Definition unit_start : state unit :=
  init tt body_5
       (embed_script [Void.IsAlive; Void.Resume; Void.IsAlive; Void.Destroy]).

Definition unit_resumed : state unit := drive false 33 unit_start.

(** * Proof automation *)

Ltac crush_step H :=
  unfold fire, step, spurious, step_caller, run, user, get, Coroutine,
    Coroutine_dtor, resume, yield, coroutine, run_end, lock, unlock,
    notify_all, operator_bool in H;
  simpl in H;
  repeat match type of H with
    | Some _ = Some _ => injection H as H; subst
    | None = Some _ => discriminate H
    | context [match ?x with _ => _ end] =>
        first [is_var x; destruct x | destruct x eqn:?]; simpl in H
    end.

Ltac split_pcs :=
  repeat match goal with
    | c : cpc |- _ => destruct c
    | l : ctor_line |- _ => destruct l
    | l : resume_line |- _ => destruct l
    | l : dtor_line |- _ => destruct l
    | w : wpc _ |- _ => destruct w
    | l : yield_line |- _ => destruct l
    | l : run_line |- _ => destruct l
    end.

Ltac finish := simpl in *; intuition (try discriminate; try congruence).

Ltac bools :=
  repeat match goal with
    | H : _ && _ = true |- _ => apply andb_true_iff in H; destruct H
    | H : negb _ = true |- _ => apply negb_true_iff in H
    | |- _ && _ = true => apply andb_true_iff; split
    | |- negb _ = true => apply negb_true_iff
    end.

Ltac crush_void H :=
  unfold Void.fire, Void.step, Void.spurious, Void.step_caller, Void.run,
    Void.user, Void.Coroutine, Void.Coroutine_dtor, Void.resume, Void.yield,
    Void.coroutine, Void.run_end, Void.lock, Void.unlock, Void.notify_all,
    Void.operator_bool in H;
  simpl in H;
  repeat match type of H with
    | Some _ = Some _ => injection H as H; subst
    | None = Some _ => discriminate H
    | context [match ?x with _ => _ end] =>
        first [is_var x; destruct x | destruct x eqn:?]; simpl in H
    end.

Section Proofs.

Variable Y : Type.
Variable result0 : Y.

Implicit Types (s : state Y) (e : event) (t : tid).

Lemma mutex_ok_step nd e s s' :
  fire nd e s = Some s' -> mutex_ok s -> mutex_ok s'.
Proof.
  intros H I. destruct s as [q g r m c sc w lg pb h].
  unfold mutex_ok in *; simpl in *.
  destruct e as [[]|[]]; crush_step H; split_pcs; finish.
Qed.

Lemma turn_ok_step nd t s s' :
  step nd t s = Some s' -> mutex_ok s -> turn_ok s -> turn_ok s'.
Proof.
  intros H M I. change (fire nd (Step t) s = Some s') in H.
  destruct s as [q g r m c sc w lg pb h].
  unfold mutex_ok, turn_ok in *; simpl in *.
  destruct t; crush_step H; split_pcs; finish.
Qed.

Lemma published_ok_step nd e s s' :
  fire nd e s = Some s' -> published_ok result0 s -> published_ok result0 s'.
Proof.
  intros H I. destruct s as [q g r m c sc w lg pb h].
  unfold published_ok in *; simpl in *.
  destruct e as [[]|[]]; crush_step H; simpl in *;
    try (split; [tauto | intros _; discriminate]);
    try (destruct I as [I1 I2]; split; [exact I1 | ]; intros [A|A];
         first [discriminate A | apply I2; auto]).
  all: split_pcs; finish.
Qed.

Lemma dtor_ok_step nd e s s' :
  fire nd e s = Some s' -> dtor_ok s -> dtor_ok s'.
Proof.
  intros H I. destruct s as [q g r m c sc w lg pb h].
  unfold dtor_ok in *; simpl in *.
  destruct e as [[]|[]]; crush_step H; simpl in *; auto; try discriminate.
  all: split_pcs; finish.
Qed.

Lemma transparent_step nd e s s' :
  fire nd e s = Some s' ->
  transparent_wpc (worker s) = true -> transparent_wpc (worker s') = true.
Proof.
  intros H I. destruct s as [q g r m c sc w lg pb h]. simpl in *.
  destruct e as [[]|[]]; crush_step H; simpl in *; bools; auto;
    try congruence.
  all: destruct w as [| |[]| |]; simpl in *; auto.
Qed.

Lemma straight_step nd e s s' :
  fire nd e s = Some s' ->
  straight_wpc (worker s) = true -> straight_wpc (worker s') = true.
Proof.
  intros H I. destruct s as [q g r m c sc w lg pb h]. simpl in *.
  destruct e as [[]|[]]; crush_step H; simpl in *; bools; auto;
    try congruence.
  all: destruct w as [| |[]| |]; simpl in *; auto.
Qed.

Lemma straight_transparent (b : stmt Y) :
  straight b = true -> transparent b = true.
Proof.
  induction b; simpl; intros H; bools; auto; discriminate.
Qed.

Lemma flag_ok_step nd t s s' :
  step nd t s = Some s' -> mutex_ok s -> turn_ok s ->
  transparent_wpc (worker s) = true -> flag_ok s -> flag_ok s'.
Proof.
  intros H M T P I. change (fire nd (Step t) s = Some s') in H.
  destruct s as [q g r m c sc w lg pb h].
  unfold mutex_ok, turn_ok, flag_ok in *; simpl in *.
  destruct t; crush_step H; simpl in *; bools; split_pcs; finish.
Qed.

Lemma nth_error_rev_hd (pb rest : list Y) (d : Y) (n : nat) :
  length pb = n + 1 -> nth_error (rev pb ++ rest) n = Some (hd d pb).
Proof.
  destruct pb as [|a pb']; simpl; intros L; [lia|].
  rewrite <- app_assoc. rewrite nth_error_app2; rewrite length_rev; [|lia].
  replace (n - length pb') with 0 by lia. reflexivity.
Qed.

Lemma order_ok_step nd t vs s s' :
  step nd t s = Some s' -> mutex_ok s -> turn_ok s ->
  published_ok result0 s -> flag_ok s -> dtor_ok s ->
  straight_wpc (worker s) = true -> order_ok vs s -> order_ok vs s'.
Proof.
  intros H M T P F D S I. change (fire nd (Step t) s = Some s') in H.
  destruct s as [q g r m c sc w lg pb h].
  unfold mutex_ok, turn_ok, published_ok, flag_ok, dtor_ok, order_ok,
    count_ok in *; simpl in *.
  destruct t; crush_step H; simpl in *; bools; split_pcs; simpl in *;
    try discriminate;
    intuition (try discriminate; try congruence; try lia;
               rewrite <- ?app_assoc, ?app_nil_r in *; simpl in *;
               try congruence; try lia).
  all: subst; simpl in *; try lia.
  all: try (destruct g; simpl; auto).
  all: try match goal with
       | H : Returned _ = Returned _ |- _ => injection H as H; subst
       end.
  all: try (destruct q; [ intuition (try discriminate; try congruence) | ]).
  all: try (split; [ | assumption ]).
  all: try match goal with
       | H : ?a = ?a -> false = true |- _ => discriminate (H eq_refl)
       end.
  all: try match goal with
       | H : false = false -> rev _ ++ _ = _ |- _ =>
           rewrite <- (H eq_refl); apply nth_error_rev_hd; intuition lia
       end.
Qed.

Lemma finished_ok_step nd e s s' :
  fire nd e s = Some s' -> finished_ok s -> finished_ok s'.
Proof.
  intros H I. destruct s as [q g r m c sc w lg pb h].
  unfold finished_ok in *; simpl in *.
  destruct e as [[]|[]]; crush_step H; simpl in *; auto; try discriminate;
    try congruence.
  all: destruct w as [|[]|[]|[]|]; simpl in *; auto; try discriminate.
  all: match goal with x : exn |- _ => destruct x; auto; discriminate end.
Qed.

(** ** Reachable states *)

Lemma reach_front nd sp e s0 s1 s :
  allowed sp e = true -> fire nd e s0 = Some s1 ->
  reach nd sp s1 s -> reach nd sp s0 s.
Proof.
  intros A F R. induction R.
  - eapply reach_step; [apply reach_init | exact A | exact F].
  - eapply reach_step; eauto.
Qed.

Lemma exec_reach nd sp es s0 s :
  forallb (allowed sp) es = true -> exec nd es s0 = Some s ->
  reach nd sp s0 s.
Proof.
  revert s0. induction es as [|e es IH]; simpl; intros s0 A X.
  - injection X as <-. apply reach_init.
  - apply andb_true_iff in A. destruct A as [A1 A2].
    destruct (fire nd e s0) as [s1|] eqn:F; [|discriminate].
    eapply reach_front; eauto.
Qed.

Lemma reach_trans nd sp s0 s1 s2 :
  reach nd sp s0 s1 -> reach nd sp s1 s2 -> reach nd sp s0 s2.
Proof.
  intros R1 R2. induction R2; [assumption | eapply reach_step; eauto].
Qed.

Lemma exec_app nd es1 es2 s :
  exec nd (es1 ++ es2) s =
  match exec nd es1 s with
  | Some s1 => exec nd es2 s1
  | None => None
  end.
Proof.
  revert s. induction es1 as [|e es1 IH]; simpl; intros s; [reflexivity|].
  destruct (fire nd e s); [apply IH | reflexivity].
Qed.

Lemma exec_schedule_of nd fuel s :
  exec nd (schedule_of nd fuel s) s = Some (drive nd fuel s).
Proof.
  revert s. induction fuel as [|n IH]; simpl; intros s; [reflexivity|].
  unfold sched. destruct (step nd Caller s) as [s1|] eqn:C; simpl.
  - rewrite C. apply IH.
  - destruct (step nd Worker s) as [s2|] eqn:W; simpl; [|reflexivity].
    rewrite W. apply IH.
Qed.

Lemma handshake_schedule_of nd fuel s : handshake (schedule_of nd fuel s) = true.
Proof.
  revert s. induction fuel as [|n IH]; simpl; intros s; [reflexivity|].
  destruct (step nd Caller s); simpl; [apply IH|].
  destruct (step nd Worker s); simpl; [apply IH | reflexivity].
Qed.

Lemma drive_add nd n m s : drive nd (n + m) s = drive nd m (drive nd n s).
Proof.
  revert s. induction n as [|n IH]; simpl; intros s; [reflexivity|].
  destruct (sched nd s) as [s1|] eqn:E; [apply IH|].
  destruct m; simpl; [reflexivity | rewrite E; reflexivity].
Qed.

(** Invariants of every execution, spurious wake-ups included. *)
Lemma reach_any nd sp b sc s :
  reach nd sp (init result0 b sc) s ->
  mutex_ok s /\ published_ok result0 s /\ dtor_ok s /\ finished_ok s
  /\ (transparent b = true -> transparent_wpc (worker s) = true)
  /\ (straight b = true -> straight_wpc (worker s) = true).
Proof.
  induction 1 as [|s e s' R IH A F].
  - unfold mutex_ok, published_ok, dtor_ok, finished_ok; simpl.
    intuition discriminate.
  - destruct IH as (M & P & D & Fi & T & S).
    split; [eapply mutex_ok_step; eauto|].
    split; [eapply published_ok_step; eauto|].
    split; [eapply dtor_ok_step; eauto|].
    split; [eapply finished_ok_step; eauto|].
    split; intros Hb; [eapply transparent_step | eapply straight_step]; eauto.
Qed.

(** Invariants of handshake executions. *)
Lemma reach_handshake nd b sc s :
  reach nd false (init result0 b sc) s ->
  turn_ok s
  /\ (transparent b = true -> flag_ok s)
  /\ (straight b = true -> order_ok (yields_of b) s).
Proof.
  induction 1 as [|s e s' R IH A F].
  - unfold turn_ok, flag_ok, order_ok, count_ok; simpl.
    intuition discriminate.
  - destruct IH as (T & Fl & O).
    destruct (reach_any R) as (M & P & D & _ & Tr & St).
    destruct e as [t|t]; [|discriminate A]. simpl in F.
    split; [|split].
    + eapply turn_ok_step; eauto.
    + intros Hb. eapply flag_ok_step; eauto.
    + intros Hb. eapply order_ok_step; eauto.
      apply Fl, straight_transparent, Hb.
Qed.

Lemma allowed_any es : forallb (allowed true) es = true.
Proof. induction es as [|[] ? ?]; auto. Qed.

(** ** The termination flag *)

Lemma quit_monotone nd e s s' :
  fire nd e s = Some s' -> quit s = true -> quit s' = true.
Proof.
  intros H Q. destruct s as [q g r m c sc w lg pb h]. simpl in *. subst q.
  destruct e as [[]|[]]; crush_step H; reflexivity.
Qed.

Lemma quit_rise_cause nd e s s' :
  fire nd e s = Some s' -> quit s = false -> quit s' = true ->
  sets_quit e s = true.
Proof.
  intros H Q Q'. destruct s as [q g r m c sc w lg pb h]. simpl in *. subst q.
  destruct e as [[]|[]]; crush_step H; simpl in *;
    first [reflexivity | discriminate].
Qed.

Lemma exec_quit_monotone nd es s s' :
  exec nd es s = Some s' -> quit s = true -> quit s' = true.
Proof.
  revert s. induction es as [|e es IH]; simpl; intros s X Q.
  - injection X as <-. exact Q.
  - destruct (fire nd e s) as [s1|] eqn:F; [|discriminate].
    apply (IH s1 X). eapply quit_monotone; eauto.
Qed.

Lemma trace_head nd es s : exists l, trace nd es s = s :: l.
Proof. destruct es; simpl; eauto. Qed.

Lemma rises_cons a b l :
  rises (a :: b :: l) = (if negb a && b then 1 else 0) + rises (b :: l).
Proof. reflexivity. Qed.

Lemma falls_cons a b l :
  falls (a :: b :: l) = (if a && negb b then 1 else 0) + falls (b :: l).
Proof. reflexivity. Qed.

Lemma trace_flips nd es s s' :
  exec nd es s = Some s' ->
  falls (map (@quit Y) (trace nd es s)) = 0
  /\ rises (map (@quit Y) (trace nd es s))
     = (if negb (quit s) && quit s' then 1 else 0).
Proof.
  revert s. induction es as [|e es IH]; intros s X.
  - simpl in X. injection X as <-. simpl.
    destruct (quit s); auto.
  - simpl in X. simpl trace.
    destruct (fire nd e s) as [s1|] eqn:F; [|discriminate].
    destruct (IH s1 X) as [IH1 IH2].
    destruct (trace_head nd es s1) as [l E]. rewrite E in *.
    change (map (@quit Y) (s :: s1 :: l))
      with (quit s :: quit s1 :: map (@quit Y) l).
    change (map (@quit Y) (s1 :: l)) with (quit s1 :: map (@quit Y) l) in *.
    rewrite rises_cons, falls_cons, IH1, IH2.
    destruct (quit s) eqn:Q.
    + assert (Q1 : quit s1 = true) by (eapply quit_monotone; eauto).
      rewrite Q1. simpl. auto.
    + destruct (quit s1) eqn:Q1; simpl.
      * assert (Q' : quit s' = true) by (eapply exec_quit_monotone; eauto).
        rewrite Q'. auto.
      * auto.
Qed.

(** C5.  Along every execution (spurious wake-ups included) the flag [quit]
    never falls and rises at most once; it has risen exactly when it is set
    at the end; it is set once the destructor has completed or the thread
    function has returned; and the only steps that change it are line 119
    (the body returned) and line 42 (the destructor asks for
    cancellation). *)
Theorem quit_set_exactly_once nd (b : stmt Y) sc es s :
  exec nd es (init result0 b sc) = Some s ->
  falls (map (@quit Y) (trace nd es (init result0 b sc))) = 0
  /\ rises (map (@quit Y) (trace nd es (init result0 b sc))) <= 1
  /\ (quit s = true <->
      rises (map (@quit Y) (trace nd es (init result0 b sc))) = 1)
  /\ (caller s = CDestroyed \/ worker s = WDone -> quit s = true)
  /\ (forall e s1 s2, fire nd e s1 = Some s2 -> quit s1 <> quit s2 ->
        quit s1 = false /\ quit s2 = true /\ sets_quit e s1 = true).
Proof.
  intros X. destruct (trace_flips nd es _ X) as [Fa Ri].
  simpl in Ri. split; [exact Fa|].
  split; [rewrite Ri; destruct (quit s); lia|].
  split; [rewrite Ri; destruct (quit s); split; (congruence || lia)|].
  split.
  - assert (R : reach nd true (init result0 b sc) s).
    { eapply exec_reach; eauto. apply allowed_any. }
    destruct (reach_any R) as (_ & _ & D & Fi & _).
    intros [C|W]; [apply D | apply Fi]; [rewrite C | rewrite W]; reflexivity.
  - intros e s1 s2 F N.
    destruct (quit s1) eqn:Q1.
    + assert (Q2 : quit s2 = true) by (eapply quit_monotone; eauto).
      congruence.
    + destruct (quit s2) eqn:Q2; [|congruence].
      repeat split. eapply quit_rise_cause; eauto.
Qed.

(** ** [get] *)

(** C7.  In every reachable state where [canGetValue] holds, [get] passes
    its assertion and returns the value most recently stored by line 52 of
    [yield], in both builds.  Where it does not hold, the build decides: with
    assertions enabled the assertion of line 64 fires and the process stops,
    no error value is returned; with [NDEBUG] the assertion is compiled out,
    [get] returns the content of the slot, which is the value last stored by
    [yield] (the initial content if none was), and the caller goes on. *)
Theorem get_returns_last_published nd (b : stmt Y) sc es s :
  exec nd es (init result0 b sc) = Some s ->
  (canGetValue s = true ->
     exists v older, published s = v :: older /\ get nd s = Returned v)
  /\ (canGetValue s = false ->
        get nd s = (if nd then Returned (hd result0 (published s))
                    else GetAssertionFailed)
        /\ forall sc', halted s = None -> caller s = CUser ->
             script s = Get :: sc' ->
             step nd Caller s
             = Some (if nd
                     then observe (EvGetUnchecked (hd result0 (published s)))
                                  (set_script sc' s)
                     else stop AssertionFailed (set_script sc' s))).
Proof.
  intros X.
  assert (R : reach nd true (init result0 b sc) s).
  { eapply exec_reach; eauto. apply allowed_any. }
  destruct (reach_any R) as (_ & [P1 P2] & _).
  split.
  - intros G. destruct (published s) as [|v older] eqn:E.
    + exfalso. apply P2; auto.
    + exists v, older. split; [reflexivity|].
      unfold get. rewrite G, P1. reflexivity.
  - intros G. unfold get. rewrite G, <- P1. split; [destruct nd; reflexivity|].
    intros sc' Hh Hc Hs. unfold step, step_caller, user, get.
    rewrite Hh, Hc, Hs, G. destruct nd; reflexivity.
Qed.

Lemma exec_gets nd (n : nat) q r m sc (w : wpc Y) lg pb :
  exec nd (repeat (Step Caller) n)
       (mkState q true r m CUser (repeat Get n ++ sc) w lg pb None)
  = Some (mkState q true r m CUser sc w (repeat (EvGet r) n ++ lg) pb None).
Proof.
  revert lg. induction n as [|n IH]; intros lg; [reflexivity|].
  change (exec nd (repeat (Step Caller) (S n))
            (mkState q true r m CUser (repeat Get (S n) ++ sc) w lg pb None))
    with (exec nd (repeat (Step Caller) n)
            (mkState q true r m CUser (repeat Get n ++ sc) w
                     (EvGet r :: lg) pb None)).
  rewrite IH. do 2 f_equal.
  change (EvGet r :: lg) with ([EvGet r] ++ lg). rewrite app_assoc.
  f_equal. change [EvGet r] with (repeat (EvGet r) 1).
  rewrite <- repeat_app. f_equal. lia.
Qed.

(** C10.  [get] does not write: [n] consecutive calls made while
    [canGetValue] holds all return [result], and leave every field of the
    object, the mutex and the worker as they were. *)
Theorem get_idempotent nd (n : nat) s sc :
  halted s = None -> caller s = CUser -> canGetValue s = true ->
  script s = repeat Get n ++ sc ->
  get nd s = Returned (result s)
  /\ exec nd (repeat (Step Caller) n) s =
     Some (mkState (quit s) (canGetValue s) (result s) (mutex s) CUser sc
                   (worker s) (repeat (EvGet (result s)) n ++ log s)
                   (published s) None).
Proof.
  intros Hh Hc Hg Hs. split; [unfold get; rewrite Hg; reflexivity|].
  destruct s as [q g r m c scr w lg pb h]. simpl in *. subst.
  apply exec_gets.
Qed.

(** ** [resume] after the end *)

(** C9.  With assertions compiled out, a [resume] issued while [quit] is set
    (and the mutex is free, so that line 76 does not wait) completes in four
    caller steps, none of which is a notify or a wait: [quit], [canGetValue],
    [result], the mutex and the worker are unchanged; only the caller's
    history records the call.  [Coroutine<void>::resume] (lines 161-170) is
    the same text; it is the instance of this statement at a value type
    without information. *)
Theorem resume_after_quit_changes_nothing s sc :
  halted s = None -> caller s = CUser -> script s = Resume :: sc ->
  quit s = true -> mutex s = None ->
  exec true (repeat (Step Caller) 4) s
  = Some (mkState (quit s) (canGetValue s) (result s) (mutex s) CUser sc
                  (worker s) (EvResume :: log s) (published s) None).
Proof.
  intros Hh Hc Hs Hq Hm.
  destruct s as [q g r m c scr w lg pb h]. simpl in *. subst. reflexivity.
Qed.

(** ** The cancellation signal *)



(** ** The flags once [quit] is set *)

Lemma quit_slot_invalid nd (b : stmt Y) sc s :
  transparent b = true -> reach nd false (init result0 b sc) s ->
  quit s = true -> mutex s = None -> canGetValue s = false.
Proof.
  intros Hb R Q M.
  destruct (reach_handshake R) as (_ & Fl & _).
  destruct (reach_any R) as ([M1 M2] & _).
  destruct (Fl Hb Q) as [_ G].
  destruct (canGetValue s); [|reflexivity].
  destruct (G eq_refl) as [W|C].
  - rewrite W in M1. rewrite M in M1. simpl in M1.
    destruct (caller_holds (caller s)); discriminate.
  - rewrite C in M1. rewrite M in M1. simpl in M1. discriminate.
Qed.

(** C6, as the code has it.  In a handshake execution of a body that never
    catches the cancellation signal, once [quit] is set it stays set, a
    [resume] that reaches line 77 neither notifies nor waits (the assertion
    fires, or with NDEBUG the call goes straight to its return), and in this
    and every later state [canGetValue] is false whenever the mutex is
    free. *)
Theorem quit_invalidates_slot nd (b : stmt Y) sc es s :
  transparent b = true -> handshake es = true ->
  exec nd es (init result0 b sc) = Some s -> quit s = true ->
  (halted s = None -> caller s = CResume RTest ->
     step nd Caller s
     = Some (if nd then set_caller (CResume RRet) s
             else stop AssertionFailed s))
  /\ (forall es' s', handshake es' = true -> exec nd es' s = Some s' ->
        quit s' = true /\ (mutex s' = None -> canGetValue s' = false)).
Proof.
  intros Hb He X Q. split.
  - intros Hh Hc. unfold step, step_caller. rewrite Hh, Hc. simpl.
    rewrite Q. destruct nd; reflexivity.
  - intros es' s' He' X'. split; [eapply exec_quit_monotone; eauto|].
    apply quit_slot_invalid with (nd:=nd) (b:=b) (sc:=sc); auto.
    + apply exec_reach with (es:=es ++ es').
      * unfold handshake in *. rewrite forallb_app, He, He'. reflexivity.
      * rewrite exec_app, X. exact X'.
    + eapply exec_quit_monotone; eauto.
Qed.

(** ** Alternation in handshake executions *)

Lemma handshake_alternation nd (b : stmt Y) sc es s :
  handshake es = true -> exec nd es (init result0 b sc) = Some s ->
  caller_in_user_code s && worker_in_user_code s = false.
Proof.
  intros He X.
  assert (R : reach nd false (init result0 b sc) s)
    by (eapply exec_reach; eauto).
  destruct (reach_handshake R) as ((T1 & T2 & _) & _).
  unfold caller_in_user_code, worker_in_user_code.
  destruct (caller s) eqn:C; try reflexivity.
  simpl in *. destruct (worker s) as [| |[]| |]; simpl in *;
    try reflexivity; try (specialize (T2 eq_refl eq_refl); discriminate);
    discriminate.
Qed.

(** In handshake executions, whenever the caller is in its own code (in
    particular when the constructor has just returned) the mutex is free and
    the worker is suspended inside [yield] or has finished with [quit]
    set. *)
Lemma handshake_user_code nd (b : stmt Y) sc es s :
  handshake es = true -> exec nd es (init result0 b sc) = Some s ->
  caller s = CUser ->
  mutex s = None
  /\ (suspended (worker s) = true
      \/ (finished (worker s) = true /\ quit s = true)).
Proof.
  intros He X C.
  assert (R : reach nd false (init result0 b sc) s)
    by (eapply exec_reach; eauto).
  destruct (reach_handshake R) as ((T1 & T2 & _) & _).
  destruct (reach_any R) as ([M1 M2] & _ & _ & Fi & _).
  rewrite C in *. simpl in *. specialize (T2 eq_refl eq_refl).
  unfold parked in T2. unfold finished_ok in Fi.
  destruct (worker s) as [| |[]| |]; simpl in *; try discriminate; auto.
Qed.

(** ** Running straight bodies to completion *)

Lemma burst nd (kb : list (frame Y)) :
  forall n (b : stmt Y) k,
    weight b + weight_stack k < n ->
    straight b = true -> straight_stack k = true ->
    forall cb g r sc lg pb, blocked_caller cb ->
    exists fuel,
      burst_result cb sc lg pb g r kb (yields_of b ++ yields_of_stack k)
        (drive nd fuel
           (mkState false g r None cb sc (WBody (Exec b) (k ++ kb)) lg pb None)).
Proof.
  induction n as [|n IH]; intros b k Hw Hb Hk cb g r sc lg pb Hcb; [lia|].
  destruct b as [|v| | b1 b2| |]; simpl in Hb; try discriminate.
  - destruct k as [|[s2|] k'].
    + exists 0. reflexivity.
    + simpl in Hk, Hw. apply andb_true_iff in Hk. destruct Hk as [H2 Hk].
      destruct (IH s2 k') with (cb:=cb) (g:=g) (r:=r) (sc:=sc) (lg:=lg) (pb:=pb)
        as [fuel R]; auto; [lia|].
      exists (S fuel). destruct Hcb; subst; exact R.
    + discriminate.
  - exists 8. simpl. exists k. repeat split; auto.
    destruct Hcb; subst; reflexivity.
  - apply andb_true_iff in Hb. destruct Hb as [H1 H2].
    destruct (IH b1 (KSeq b2 :: k)) with (cb:=cb) (g:=g) (r:=r) (sc:=sc)
      (lg:=lg) (pb:=pb) as [fuel R]; auto.
    + simpl in *. lia.
    + simpl. rewrite H2, Hk. reflexivity.
    + exists (S fuel). simpl yields_of. rewrite <- app_assoc.
      destruct Hcb; subst; exact R.
Qed.

Lemma run_end_drive nd cb g r sc (lg : list (cev Y)) pb :
  blocked_caller cb ->
  drive nd 8 (mkState false g r None cb sc (WBody (Exec Skip) []) lg pb None)
  = mkState true false r None CUser sc WDone (ret_log cb lg) pb None.
Proof. intros [-> | ->]; reflexivity. Qed.

Lemma throw_drive nd cb g r sc (lg : list (cev Y)) pb std tag :
  blocked_caller cb ->
  drive nd 3 (mkState false g r None cb sc
                (WBody (Exec Skip) [KSeq (Throw std tag)]) lg pb None)
  = mkState false g r None cb sc
      (WBody (Unwind (UserException std tag)) []) lg pb (Some Terminated).
Proof. intros [-> | ->]; reflexivity. Qed.

Lemma play nd (kb : list (frame Y)) :
  forall vs v k, straight_stack k = true -> yields_of_stack k = vs ->
  forall sc lg pb,
  exists fuel lg' pb' v',
    drive nd fuel
      (mkState false true v None CUser (get_resume (S (length vs)) ++ sc)
               (WYield YBlocked v (k ++ kb)) lg pb None)
    = mkState false true v' None (CResume RBlocked) sc
              (WBody (Exec Skip) kb) lg' pb' None
    /\ gets lg' = gets lg ++ v :: vs
    /\ resumes lg' = resumes lg + length vs
    /\ rev pb' = rev pb ++ vs.
Proof.
  induction vs as [|v2 rest IH]; intros v k Hk Hy sc lg pb.
  - edestruct burst
      with (nd:=nd) (kb:=kb) (n:=S (1 + weight_stack k)) (b:=@Skip Y) (k:=k)
           (cb:=CResume RBlocked) (g:=true) (r:=v) (sc:=sc)
           (lg:=EvGet v :: lg) (pb:=pb) as [fuel R];
      auto; [right; reflexivity|].
    simpl in R. rewrite Hy in R. simpl in R.
    exists (9 + fuel), (EvGet v :: lg), pb, v.
    rewrite drive_add. split; [exact R|].
    simpl. rewrite app_nil_r. repeat split; lia.
  - assert (E9 :
      drive nd 9
        (mkState false true v None CUser
           (get_resume (S (length (v2 :: rest))) ++ sc)
           (WYield YBlocked v (k ++ kb)) lg pb None)
      = mkState false true v None (CResume RBlocked)
          (get_resume (S (length rest)) ++ sc)
          (WBody (Exec Skip) (k ++ kb)) (EvGet v :: lg) pb None)
      by reflexivity.
    remember (get_resume (S (length rest)) ++ sc) as sc1 eqn:Hsc.
    edestruct burst
      with (nd:=nd) (kb:=kb) (n:=S (1 + weight_stack k)) (b:=@Skip Y) (k:=k)
           (cb:=CResume RBlocked) (g:=true) (r:=v) (sc:=sc1)
           (lg:=EvGet v :: lg) (pb:=pb) as [fuel R];
      auto; [right; reflexivity|].
    simpl in R. rewrite Hy in R. simpl in R.
    destruct R as (k' & Hk' & Hy' & R). subst sc1.
    destruct (IH v2 k' Hk' Hy' sc (EvResume :: EvGet v :: lg) (v2 :: pb))
      as (fuel' & lg' & pb' & v' & D & G & N & P).
    exists (9 + (fuel + fuel')), lg', pb', v'.
    rewrite drive_add, E9, drive_add, R, D. split; [reflexivity|].
    simpl in G, N, P. simpl.
    rewrite <- app_assoc in G, P. simpl in G, P.
    repeat split; auto; lia.
Qed.

Lemma log_ok_tail (vs : list Y) a l : log_ok vs (a :: l) -> log_ok vs l.
Proof. destruct a; simpl; tauto. Qed.

Lemma log_ok_split (vs : list Y) l :
  log_ok vs l ->
  forall later v earlier, l = later ++ EvGet v :: earlier ->
    nth_error vs (resumes earlier) = Some v.
Proof.
  induction l as [|a l IH]; intros H later v earlier E.
  - destruct later; discriminate.
  - destruct later as [|a' later].
    + simpl in E. injection E as -> ->. simpl in H. tauto.
    + simpl in E. injection E as -> ->.
      apply log_ok_tail in H. eapply IH; eauto.
Qed.

Lemma halted_dead nd e s h : halted s = Some h -> fire nd e s = None.
Proof.
  intros H. destruct e; simpl; unfold step, spurious; rewrite H; reflexivity.
Qed.

Lemma straight_total nd (b : stmt Y) sc :
  straight b = true ->
  exists fuel f,
    drive nd fuel
      (init result0 b (get_resume (length (yields_of b)) ++ sc)) = f
    /\ caller f = CUser /\ script f = sc /\ worker f = WDone
    /\ quit f = true /\ canGetValue f = false /\ halted f = None
    /\ gets (log f) = yields_of b
    /\ resumes (log f) = length (yields_of b)
    /\ rev (published f) = yields_of b.
Proof.
  intros Hb.
  assert (E3 : forall sc0,
    drive nd 3 (init result0 b sc0)
    = mkState false false result0 None (CCtor CtorBlocked) sc0
        (WBody (Exec b) ([] ++ [])) [] [] None) by reflexivity.
  destruct (yields_of b) as [|v rest] eqn:Hy.
  - edestruct burst
      with (nd:=nd) (kb:=@nil (frame Y)) (n:=S (weight b + 0)) (b:=b)
           (k:=@nil (frame Y)) (cb:=CCtor CtorBlocked) (g:=false)
           (r:=result0) (sc:=sc) (lg:=@nil (cev Y)) (pb:=@nil Y)
      as [fuel R];
      try (left; reflexivity); try (simpl; lia); auto.
    simpl yields_of_stack in R. rewrite app_nil_r, Hy in R. simpl in R.
    eexists (3 + (fuel + 8)), _. split.
    + rewrite drive_add. simpl length. simpl app at 1.
      rewrite E3, drive_add. simpl app. rewrite R.
      apply run_end_drive. left; reflexivity.
    + simpl. repeat split; reflexivity.
  - edestruct burst
      with (nd:=nd) (kb:=@nil (frame Y)) (n:=S (weight b + 0)) (b:=b)
           (k:=@nil (frame Y)) (cb:=CCtor CtorBlocked) (g:=false)
           (r:=result0) (sc:=get_resume (S (length rest)) ++ sc)
           (lg:=@nil (cev Y)) (pb:=@nil Y)
      as [fuel R];
      try (left; reflexivity); try (simpl; lia); auto.
    simpl yields_of_stack in R. rewrite app_nil_r, Hy in R.
    destruct R as (k' & Hk' & Hy' & R).
    edestruct play with (nd:=nd) (kb:=@nil (frame Y)) (vs:=rest) (v:=v)
      (k:=k') (sc:=sc) (lg:=ret_log (CCtor CtorBlocked) (@nil (cev Y)))
      (pb:=[v])
      as (fuel' & lg' & pb' & v' & D & G & N & P); auto.
    eexists (3 + (fuel + (fuel' + 8))), _. split.
    + rewrite drive_add. change (length (v :: rest)) with (S (length rest)).
      rewrite E3, drive_add, R, drive_add, D.
      apply run_end_drive. right; reflexivity.
    + simpl in *. repeat split; auto; lia.
Qed.

Lemma throwing_total nd (b : stmt Y) std tag sc :
  straight b = true ->
  exists fuel f,
    drive nd fuel
      (init result0 (Seq b (Throw std tag))
            (get_resume (length (yields_of b)) ++ sc)) = f
    /\ halted f = Some Terminated
    /\ worker f = WBody (Unwind (UserException std tag)) []
    /\ caller f = match yields_of b with
                  | [] => CCtor CtorBlocked
                  | _ :: _ => CResume RBlocked
                  end
    /\ script f = sc /\ quit f = false
    /\ gets (log f) = yields_of b
    /\ resumes (log f) = length (yields_of b) - 1
    /\ rev (published f) = yields_of b.
Proof.
  intros Hb.
  assert (E4 : forall sc0,
    drive nd 4 (init result0 (Seq b (Throw std tag)) sc0)
    = mkState false false result0 None (CCtor CtorBlocked) sc0
        (WBody (Exec b) ([] ++ [KSeq (Throw std tag)])) [] [] None)
    by reflexivity.
  destruct (yields_of b) as [|v rest] eqn:Hy.
  - edestruct burst
      with (nd:=nd) (kb:=[KSeq (@Throw Y std tag)]) (n:=S (weight b + 0))
           (b:=b) (k:=@nil (frame Y)) (cb:=CCtor CtorBlocked) (g:=false)
           (r:=result0) (sc:=sc) (lg:=@nil (cev Y)) (pb:=@nil Y)
      as [fuel R];
      try (left; reflexivity); try (simpl; lia); auto.
    simpl yields_of_stack in R. rewrite app_nil_r, Hy in R. simpl in R.
    eexists (4 + (fuel + 3)), _. split.
    + rewrite drive_add. simpl length. simpl app at 1.
      rewrite E4, drive_add. simpl app. rewrite R.
      apply throw_drive. left; reflexivity.
    + simpl. repeat split; reflexivity.
  - edestruct burst
      with (nd:=nd) (kb:=[KSeq (@Throw Y std tag)]) (n:=S (weight b + 0))
           (b:=b) (k:=@nil (frame Y)) (cb:=CCtor CtorBlocked) (g:=false)
           (r:=result0) (sc:=get_resume (S (length rest)) ++ sc)
           (lg:=@nil (cev Y)) (pb:=@nil Y)
      as [fuel R];
      try (left; reflexivity); try (simpl; lia); auto.
    simpl yields_of_stack in R. rewrite app_nil_r, Hy in R.
    destruct R as (k' & Hk' & Hy' & R).
    edestruct play with (nd:=nd) (kb:=[KSeq (@Throw Y std tag)]) (vs:=rest)
      (v:=v) (k:=k') (sc:=sc)
      (lg:=ret_log (CCtor CtorBlocked) (@nil (cev Y))) (pb:=[v])
      as (fuel' & lg' & pb' & v' & D & G & N & P); auto.
    eexists (4 + (fuel + (fuel' + 3))), _. split.
    + rewrite drive_add. change (length (v :: rest)) with (S (length rest)).
      rewrite E4, drive_add, R, drive_add, D.
      apply throw_drive. right; reflexivity.
    + simpl in *. repeat split; auto; lia.
Qed.

(** ** Order of the yielded values *)

(** C1, as the code has it.  The constructor already consumes the first
    [yield].  In a handshake execution of a body made of yields, every [get]
    that passes its assertion returns the value whose index, counted from 0,
    is the number of [resume] calls that returned before it: the [get] after
    construction returns the first value and the [get] after the n-th
    [resume] the (n+1)-th.  Driven by N get-then-resume pairs, the coroutine
    runs to completion, the N [get]s return the N values in order, and
    [quit] is set at the end. *)
Theorem checked_get_follows_yield_order nd (b : stmt Y) sc es s :
  straight b = true -> handshake es = true ->
  exec nd es (init result0 b sc) = Some s ->
  (forall later v earlier, log s = later ++ EvGet v :: earlier ->
     nth_error (yields_of b) (resumes earlier) = Some v)
  /\ (exists fuel f,
        drive nd fuel
          (init result0 b (get_resume (length (yields_of b)) ++ [IsAlive])) = f
        /\ gets (log f) = yields_of b
        /\ hd_error (log f) = Some (EvAlive false)
        /\ script f = [] /\ halted f = None /\ worker f = WDone).
Proof.
  intros Hb He X. split.
  - assert (R : reach nd false (init result0 b sc) s)
      by (eapply exec_reach; eauto).
    destruct (reach_handshake R) as (_ & _ & O).
    destruct (O Hb) as (_ & _ & _ & _ & L).
    apply log_ok_split. exact L.
  - destruct (straight_total nd b [IsAlive] Hb)
      as (fuel & f & D & C & S & W & Q & G & H & Gs & N & P).
    exists (fuel + 1), (observe (EvAlive false) (set_script [] f)).
    split.
    + rewrite drive_add, D. destruct f as [q g r m c scr w lg pb h].
      simpl in *. subst. reflexivity.
    + simpl. repeat split; auto.
Qed.

(** ** Errors raised by the body *)

(** C2, as the code has it.  [run] handles the cancellation signal only.  A
    body that yields N values and then throws is driven by N
    get-then-resume pairs up to the throw; the exception leaves the thread
    function, the process is terminated and no event can fire any more.  The
    caller is still blocked at line 81 of its N-th [resume] (at line 35 of the
    constructor when N = 0): the call never returns and nothing is reported
    to the caller. *)
Theorem body_error_terminates nd (b : stmt Y) std tag sc :
  straight b = true ->
  exists fuel f,
    drive nd fuel
      (init result0 (Seq b (Throw std tag))
            (get_resume (length (yields_of b)) ++ sc)) = f
    /\ halted f = Some Terminated
    /\ worker f = WBody (Unwind (UserException std tag)) []
    /\ caller f = match yields_of b with
                  | [] => CCtor CtorBlocked
                  | _ :: _ => CResume RBlocked
                  end
    /\ gets (log f) = yields_of b
    /\ resumes (log f) = length (yields_of b) - 1
    /\ (forall e, fire nd e f = None).
Proof.
  intros Hb.
  destruct (throwing_total nd b std tag sc Hb)
    as (fuel & f & D & H & W & C & S & Q & G & N & P).
  exists fuel, f. repeat split; auto.
  intros e. eapply halted_dead; eauto.
Qed.

End Proofs.

(** ** Spurious wake-ups *)

(** C4: a failing execution.  [body_123] is constructed and resumed once; the
    worker has returned from [yield] and is running the body when the wait of
    line 81 returns without a notify: [resume] returns, and the caller and
    the worker are in user code at the same time. *)
Theorem spurious_wakeup_breaks_alternation :
  exists s,
    exec false late_overlap (init 0 body_123 [Resume; Get]) = Some s
    /\ caller_in_user_code s = true /\ worker_in_user_code s = true.
Proof. eexists. split; [vm_compute; reflexivity|]. split; reflexivity. Qed.

(** C8: a failing execution.  The wait of line 35 returns without a notify
    before the worker thread has run: the constructor returns while the
    worker has neither yielded nor finished. *)
Theorem constructor_may_return_early :
  exists s,
    exec false early_return (init 0 body_one [IsAlive; Get]) = Some s
    /\ caller s = CUser /\ log s = []
    /\ suspended (worker s) = false /\ finished (worker s) = false
    /\ worker s = WBody (Exec (Yield 1)) [] /\ published s = []
    /\ quit s = false /\ canGetValue s = false.
Proof. eexists. split; [vm_compute; reflexivity|]. repeat split; reflexivity. Qed.

(** A body that returns without yielding: when the constructor returns the
    coroutine is already finished. *)
Example born_finished :
  drive false 100 (init 0 body_none [IsAlive])
  = mkState true false 0 None CUser [] WDone [EvAlive false] [] None.
Proof. vm_compute. reflexivity. Qed.

(** ** The claims at sample programs *)

Lemma resume_then_get_skips_first_value :
  exec false (schedule_of false 100 start_resume_first) start_resume_first
  = Some resume_first
  /\ handshake (schedule_of false 100 start_resume_first) = true
  /\ yields_of body_123 = [1; 2; 3]
  /\ gets (log resume_first) = [2; 3]
  /\ gets (log resume_first) <> yields_of body_123
  /\ script resume_first = []
  /\ halted resume_first = Some AssertionFailed.
Proof. vm_compute. repeat split; try reflexivity. discriminate. Qed.

Lemma checked_get_follows_yield_order_witness :
  log get_first = [EvGet 2; EvResume; EvGet 1]
  /\ nth_error (yields_of body_123) (resumes [EvResume; EvGet 1]) = Some 2.
Proof.
  split; [vm_compute; reflexivity|].
  refine (proj1 (@checked_get_follows_yield_order nat 0 false body_123
                   [Get; Resume; Get; Destroy]
                   (schedule_of false 100 start_get_first) get_first _ _ _)
                [] 2 [EvResume; EvGet 1] _);
    vm_compute; reflexivity.
Defined.

Lemma body_error_not_delivered :
  exec false (schedule_of false 100 start_thrown) start_thrown = Some thrown
  /\ halted thrown = Some Terminated
  /\ caller thrown = CResume RBlocked
  /\ script thrown = [Resume]
  /\ log thrown = [EvResume].
Proof. vm_compute. repeat split; reflexivity. Qed.

Lemma body_error_terminates_witness :
  straight (yielding [1; 2] Skip) = true
  /\ exists fuel f,
       drive false fuel
         (init 0 (Seq (yielding [1; 2] Skip) (Throw true 7))
               (get_resume 2 ++ [IsAlive])) = f
       /\ halted f = Some Terminated
       /\ worker f = WBody (Unwind (UserException true 7)) []
       /\ caller f = CResume RBlocked
       /\ gets (log f) = [1; 2]
       /\ resumes (log f) = 1
       /\ (forall e, fire false e f = None).
Proof.
  split; [reflexivity|].
  refine (@body_error_terminates nat 0 false (yielding [1; 2] Skip) true 7
            [IsAlive] _).
  reflexivity.
Defined.



Lemma quit_set_exactly_once_witness :
  exec false (schedule_of false 100 start_get_first) start_get_first
  = Some get_first
  /\ quit get_first = true
  /\ rises (map (@quit nat)
              (trace false (schedule_of false 100 start_get_first)
                     start_get_first)) = 1.
Proof.
  split; [vm_compute; reflexivity|]. split; [vm_compute; reflexivity|].
  refine (proj1 (proj1 (proj2 (proj2
            (@quit_set_exactly_once nat 0 false body_123
               [Get; Resume; Get; Destroy]
               (schedule_of false 100 start_get_first) get_first _)))) _);
    vm_compute; reflexivity.
Defined.

Lemma quit_slot_readable_after_catch :
  handshake (schedule_of false 100 start_catch) = true
  /\ exec false (schedule_of false 100 start_catch) start_catch
     = Some after_catch
  /\ quit after_catch = true
  /\ canGetValue after_catch = true
  /\ mutex after_catch = None
  /\ get false after_catch = Returned 5.
Proof. vm_compute. repeat split; reflexivity. Qed.

Lemma quit_invalidates_slot_witness :
  transparent body_123 = true
  /\ quit get_first = true
  /\ mutex get_first = None
  /\ canGetValue get_first = false.
Proof.
  split; [reflexivity|]. split; [vm_compute; reflexivity|].
  split; [vm_compute; reflexivity|].
  refine (proj2 (proj2 (@quit_invalidates_slot nat 0 false body_123
                          [Get; Resume; Get; Destroy]
                          (schedule_of false 100 start_get_first) get_first
                          _ _ _ _)
                       [] get_first _ _) _);
    vm_compute; reflexivity.
Defined.

Lemma get_outside_window_returns_stale_value :
  handshake (schedule_of true 100 start_stale) = true
  /\ exec true (schedule_of true 68 start_stale) start_stale
     = Some finished_unread
  /\ caller finished_unread = CUser /\ script finished_unread = [Get]
  /\ worker finished_unread = WDone
  /\ quit finished_unread = true /\ canGetValue finished_unread = false
  /\ get true finished_unread = Returned 3
  /\ exec true (schedule_of true 100 start_stale) start_stale
     = Some stale_read
  /\ log stale_read
     = [EvGetUnchecked 3; EvResume; EvGet 3; EvResume; EvGet 2; EvResume;
        EvGet 1]
  /\ script stale_read = []
  /\ halted stale_read = None.
Proof. vm_compute. repeat split; reflexivity. Qed.

Lemma get_returns_last_published_witness :
  canGetValue three_gets_reached = true
  /\ exists v older,
       published three_gets_reached = v :: older
       /\ get false three_gets_reached = Returned v.
Proof.
  split; [vm_compute; reflexivity|].
  refine (proj1 (@get_returns_last_published nat 0 false body_123
                   [Get; Get; Get; Resume]
                   (schedule_of false 13
                      (init 0 body_123 [Get; Get; Get; Resume]))
                   three_gets_reached _) _);
    vm_compute; reflexivity.
Defined.

Lemma resume_after_quit_changes_nothing_witness :
  quit resumed_too_late = true
  /\ mutex resumed_too_late = None
  /\ exec true (repeat (Step Caller) 4) resumed_too_late
     = Some (mkState true false 3 None CUser [IsAlive] WDone
               [EvResume; EvResume; EvGet 2; EvResume; EvGet 1] [3; 2; 1]
               None).
Proof.
  split; [reflexivity|]. split; [reflexivity|].
  refine (@resume_after_quit_changes_nothing nat resumed_too_late [IsAlive]
            _ _ _ _ _);
    reflexivity.
Defined.

Lemma get_idempotent_witness :
  canGetValue three_gets = true
  /\ exec false (repeat (Step Caller) 3) three_gets
     = Some (mkState false true 1 None CUser [Resume]
               (WYield YBlocked 1 [KSeq (Yield 2)])
               [EvGet 1; EvGet 1; EvGet 1] [1] None).
Proof.
  split; [reflexivity|].
  refine (proj2 (@get_idempotent nat false 3 three_gets [Resume] _ _ _ _));
    reflexivity.
Defined.

(** * Further invariants of the general class *)

Section MoreProofs.

Variable Y : Type.
Variable result0 : Y.

Implicit Types (s : state Y) (e : event) (t : tid).

Lemma alive_ok_step nd e s s' :
  fire nd e s = Some s' -> alive_ok s -> alive_ok s'.
Proof.
  intros H I. destruct s as [q g r m c sc w lg pb h].
  unfold alive_ok in *; simpl in *.
  destruct e as [[]|[]]; crush_step H; simpl in *; split_pcs; finish.
Qed.

Lemma throw_ok_step nd e s s' :
  fire nd e s = Some s' -> alive_ok s -> throw_ok s -> throw_ok s'.
Proof.
  intros H A I. destruct s as [q g r m c sc w lg pb h].
  unfold alive_ok, throw_ok in *; simpl in *.
  destruct e as [[]|[]]; crush_step H; simpl in *; split_pcs; finish.
Qed.

Lemma slot_ok_step nd e s s' :
  fire nd e s = Some s' -> dtor_ok s -> slot_ok s -> slot_ok s'.
Proof.
  intros H D I. destruct s as [q g r m c sc w lg pb h].
  unfold dtor_ok, slot_ok in *; simpl in *.
  destruct e as [[]|[]]; crush_step H; simpl in *; split_pcs; finish.
Qed.

Lemma joined_ok_step nd e s s' :
  fire nd e s = Some s' -> joined_ok s -> joined_ok s'.
Proof.
  intros H I. destruct s as [q g r m c sc w lg pb h].
  unfold joined_ok in *; simpl in *.
  destruct e as [[]|[]]; crush_step H; simpl in *; split_pcs; finish.
Qed.

Lemma first_turn_ok_step nd t s s' :
  step nd t s = Some s' -> mutex_ok s -> turn_ok s ->
  first_turn_ok s -> first_turn_ok s'.
Proof.
  intros H M T I. change (fire nd (Step t) s = Some s') in H.
  destruct s as [q g r m c sc w lg pb h].
  unfold mutex_ok, turn_ok, first_turn_ok, fresh in *; simpl in *.
  destruct t; crush_step H; simpl in *; split_pcs; simpl in *;
    try discriminate; try (destruct lg; simpl in *);
    intuition (try discriminate; try congruence).
Qed.

Lemma count_ok_step nd t s s' :
  step nd t s = Some s' -> mutex_ok s -> turn_ok s -> dtor_ok s ->
  finished_ok s -> (in_ctor (caller s) = true -> log s = []) ->
  count_ok s -> count_ok s' /\ (in_ctor (caller s') = true -> log s' = []).
Proof.
  intros H M T D F L I. change (fire nd (Step t) s = Some s') in H.
  destruct s as [q g r m c sc w lg pb h].
  unfold mutex_ok, turn_ok, dtor_ok, finished_ok, count_ok in *; simpl in *.
  destruct t; crush_step H; simpl in *; split_pcs; simpl in *;
    try discriminate;
    intuition (try discriminate; try congruence; try lia;
               subst; simpl in *; try discriminate; try lia).
  all: destruct g; simpl; assumption.
Qed.

Lemma wake_ok_step nd t s s' :
  step nd t s = Some s' -> mutex_ok s -> turn_ok s -> finished_ok s ->
  throw_ok s -> wake_ok s -> wake_ok s'.
Proof.
  intros H M T F Th I. change (fire nd (Step t) s = Some s') in H.
  destruct s as [q g r m c sc w lg pb h].
  unfold mutex_ok, turn_ok, finished_ok, throw_ok, wake_ok in *; simpl in *.
  destruct t; crush_step H; simpl in *; split_pcs; simpl in *;
    try discriminate;
    intuition (try discriminate; try congruence).
Qed.

Lemma join_ok_step nd t s s' :
  step nd t s = Some s' -> turn_ok s -> dtor_ok s ->
  transparent_wpc (worker s) = true -> join_ok s -> join_ok s'.
Proof.
  intros H T D P I. change (fire nd (Step t) s = Some s') in H.
  destruct s as [q g r m c sc w lg pb h].
  unfold turn_ok, dtor_ok, join_ok in *; simpl in *.
  destruct t; crush_step H; simpl in *; bools; split_pcs; simpl in *;
    try discriminate;
    intuition (try discriminate; try congruence).
Qed.

(** Further invariants of every execution. *)
Lemma reach_any_more nd sp (b : stmt Y) sc s :
  reach nd sp (init result0 b sc) s ->
  alive_ok s /\ throw_ok s /\ slot_ok s /\ joined_ok s.
Proof.
  induction 1 as [|s e s' R IH A F].
  - unfold alive_ok, throw_ok, slot_ok, joined_ok; simpl.
    intuition discriminate.
  - destruct IH as (Al & Th & Sl & Jo).
    destruct (reach_any R) as (_ & _ & D & _).
    split; [eapply alive_ok_step; eauto|].
    split; [eapply throw_ok_step; eauto|].
    split; [eapply slot_ok_step; eauto|].
    eapply joined_ok_step; eauto.
Qed.

(** Further invariants of handshake executions. *)
Lemma reach_handshake_more nd (b : stmt Y) sc s :
  reach nd false (init result0 b sc) s ->
  first_turn_ok s /\ count_ok s /\ wake_ok s
  /\ (transparent b = true -> join_ok s).
Proof.
  intros R.
  assert (G : (first_turn_ok s /\ wake_ok s
               /\ (transparent b = true -> join_ok s))
              /\ count_ok s /\ (in_ctor (caller s) = true -> log s = [])).
  { induction R as [|s e s' R IH A F].
    - unfold first_turn_ok, count_ok, wake_ok, join_ok; simpl.
      intuition discriminate.
    - destruct IH as ((Fi & Wa & Jo) & Co & Lo).
      destruct (reach_any R) as (M & _ & D & Fn & Tr & _).
      destruct (reach_any_more R) as (_ & Th & _).
      destruct (reach_handshake R) as (T & _).
      destruct e as [t|t]; [|discriminate A]. simpl in F.
      split; [split; [|split]|].
      + eapply first_turn_ok_step; eauto.
      + eapply wake_ok_step; eauto.
      + intros Hb. eapply join_ok_step; eauto.
      + eapply count_ok_step; eauto. }
  tauto.
Qed.

(** ** Lock discipline *)

(** X1.  In every execution, spurious wake-ups included, the mutex is owned
    by exactly the thread that is between a [lock] and the matching release
    (every path out of the constructor, [resume], [yield], the destructor's
    block and the tail of [run] releases it, the throw of line 58 too), and a
    step that changes [quit] or [canGetValue] or stores into [result] is
    taken by the thread that owns the mutex. *)
Theorem lock_discipline nd (b : stmt Y) sc es s :
  exec nd es (init result0 b sc) = Some s ->
  (mutex s = Some Caller <-> caller_holds (caller s) = true)
  /\ (mutex s = Some Worker <-> worker_holds (worker s) = true)
  /\ (forall e s', fire nd e s = Some s' ->
        quit s' <> quit s \/ canGetValue s' <> canGetValue s
        \/ published s' <> published s ->
        exists t, e = Step t /\ mutex s = Some t /\ mutex s' = Some t).
Proof.
  intros X.
  assert (R : reach nd true (init result0 b sc) s)
    by (eapply exec_reach; eauto; apply allowed_any).
  destruct (reach_any R) as ([M1 M2] & _).
  split; [|split].
  - rewrite M1. destruct (caller_holds (caller s)); [tauto|].
    destruct (worker_holds (worker s)); split; discriminate.
  - rewrite M1. destruct (caller_holds (caller s)) eqn:C.
    + rewrite (M2 eq_refl). split; discriminate.
    + destruct (worker_holds (worker s)); split; auto; discriminate.
  - intros e s' F N. clear R X.
    destruct s as [q g r m c scr w lg pb h]. simpl in *.
    destruct e as [[]|[]]; crush_step F; simpl in *;
      try (exfalso; intuition congruence).
    all: try match goal with
         | M : caller_holds ?c = true -> true = false |- _ =>
             destruct (caller_holds c) eqn:?; [discriminate (M eq_refl)|]
         end.
    all: split_pcs; simpl in *; try discriminate.
    all: eexists; repeat split; first [reflexivity | congruence].
Qed.

(** ** The constructor, the liveness check and the turns *)

Lemma user_code_facts nd (b : stmt Y) sc es s :
  handshake es = true -> exec nd es (init result0 b sc) = Some s ->
  caller s = CUser ->
  mutex s = None
  /\ ((exists v k older,
         worker s = WYield YBlocked v k /\ quit s = false
         /\ canGetValue s = true /\ result s = v
         /\ published s = v :: older
         /\ length (published s) = resumes (log s) + 1)
      \/ (worker s = WDone /\ quit s = true /\ canGetValue s = false)).
Proof.
  intros He X C.
  assert (R : reach nd false (init result0 b sc) s)
    by (eapply exec_reach; eauto).
  destruct (reach_handshake R) as ((T1 & T2 & _) & _).
  destruct (reach_handshake_more R) as (_ & Co & _).
  destruct (reach_any R) as ([M1 M2] & [P1 P2] & _ & Fi & _).
  destruct (reach_any_more R) as (Al & _ & [S1 S2] & _).
  unfold alive_ok, finished_ok, count_ok in *.
  rewrite C in *. simpl in *. specialize (T2 eq_refl eq_refl).
  unfold parked in T2.
  destruct (worker s) as [| |[] v k| |] eqn:W; simpl in *; try discriminate.
  - split; [assumption|]. left.
    destruct (quit s) eqn:Q.
    + destruct (Al eq_refl eq_refl) as [A _]. discriminate.
    + specialize (S1 v eq_refl). specialize (S2 eq_refl eq_refl).
      specialize (Co eq_refl).
      destruct (published s) as [|v' older] eqn:Pb; [discriminate|].
      simpl in S1. injection S1 as ->.
      exists v, k, older. simpl in *. repeat split; auto. lia.
  - split; [assumption|]. right.
    rewrite (Fi eq_refl) in *. repeat split.
    destruct (canGetValue s); [|reflexivity].
    destruct (Al eq_refl eq_refl) as [_ A]. discriminate (A eq_refl).
Qed.

(** X3.  Without spurious wake-up, when the constructor has returned and
    the caller has not yet used the object, the mutex is free and either the
    worker is suspended in its first [yield], whose argument is the one value
    stored so far, with [canGetValue] set, or the body has returned without
    yielding, [quit] is set and nothing was stored. *)
Theorem constructor_postcondition nd (b : stmt Y) sc es s :
  handshake es = true -> exec nd es (init result0 b sc) = Some s ->
  caller s = CUser -> log s = [] ->
  mutex s = None
  /\ ((exists v k,
         worker s = WYield YBlocked v k /\ quit s = false
         /\ canGetValue s = true /\ result s = v /\ published s = [v])
      \/ (worker s = WDone /\ quit s = true /\ canGetValue s = false
          /\ published s = [])).
Proof.
  intros He X C L.
  edestruct user_code_facts with (nd:=nd) (b:=b) (sc:=sc) (es:=es)
    as [M U]; eauto.
  split; [exact M|].
  assert (R : reach nd false (init result0 b sc) s)
    by (eapply exec_reach; eauto).
  destruct (reach_handshake_more R) as (Fi & _).
  unfold first_turn_ok, fresh in Fi. rewrite C, L in Fi.
  destruct (Fi eq_refl) as (_ & _ & Pb).
  destruct U as [(v & k & older & W & Q & G & Re & P & N) | (W & Q & G)].
  - left. exists v, k. rewrite W in Pb. simpl in Pb. repeat split; auto.
  - right. rewrite W in Pb. simpl in Pb. repeat split; auto.
Qed.

(** X4.  Without spurious wake-up, whenever the caller is in its own code
    the liveness check is exact, and [get] is allowed exactly when it
    returns true: [operator bool] is true iff the worker is suspended inside
    [yield], false iff the thread function has returned, and [canGetValue]
    has the same value. *)
Theorem liveness_check_exact nd (b : stmt Y) sc es s :
  handshake es = true -> exec nd es (init result0 b sc) = Some s ->
  caller s = CUser ->
  (operator_bool s = true <-> suspended (worker s) = true)
  /\ (operator_bool s = false <-> finished (worker s) = true)
  /\ canGetValue s = operator_bool s.
Proof.
  intros He X C.
  edestruct user_code_facts with (nd:=nd) (b:=b) (sc:=sc) (es:=es)
    as [_ U]; eauto.
  unfold operator_bool.
  destruct U as [(v & k & older & W & Q & G & _) | (W & Q & G)];
    rewrite W, Q, G; simpl; repeat split; auto; discriminate.
Qed.

(** X5.  Without spurious wake-up and for every body, each turn handed to
    the worker produces exactly one value while the coroutine is alive: in
    the caller's own code with [quit] clear, the number of values stored by
    line 52 is the number of [resume] calls that returned plus one, and
    [get] returns the argument of the [yield] the worker is suspended in. *)
Theorem one_yield_per_turn nd (b : stmt Y) sc es s :
  handshake es = true -> exec nd es (init result0 b sc) = Some s ->
  caller s = CUser -> quit s = false ->
  exists v k,
    worker s = WYield YBlocked v k
    /\ length (published s) = resumes (log s) + 1
    /\ hd_error (published s) = Some v
    /\ get nd s = Returned v.
Proof.
  intros He X C Q.
  edestruct user_code_facts with (nd:=nd) (b:=b) (sc:=sc) (es:=es)
    as [_ U]; eauto.
  destruct U as [(v & k & older & W & _ & G & Re & P & N) | (W & Q' & G)];
    [|congruence].
  exists v, k. repeat split; auto.
  - rewrite P. reflexivity.
  - unfold get. rewrite G, Re. reflexivity.
Qed.

(** ** The destructor *)

(** X6.  In every execution, spurious wake-ups included, once the destructor
    has returned the thread function has returned and [quit] is set: the
    worker thread never outlives the object. *)
Theorem destroyed_means_joined nd (b : stmt Y) sc es s :
  exec nd es (init result0 b sc) = Some s ->
  caller s = CDestroyed ->
  worker s = WDone /\ quit s = true /\ mutex s = None.
Proof.
  intros X C.
  assert (R : reach nd true (init result0 b sc) s)
    by (eapply exec_reach; eauto; apply allowed_any).
  destruct (reach_any R) as ([M1 M2] & _ & D & _).
  destruct (reach_any_more R) as (_ & _ & _ & J).
  unfold dtor_ok, joined_ok in *. rewrite C in *. simpl in *.
  rewrite (J eq_refl) in *. simpl in *. auto.
Qed.



(** ** No lost wake-up *)

Lemma coroutine_total (c : ctl Y) k s : exists s', coroutine c k s = Some s'.
Proof.
  destruct c as [[]|[]], k as [|[]]; simpl; try (eexists; reflexivity).
  all: destruct (catches _ _); eexists; reflexivity.
Qed.

(** X8.  Without spurious wake-up and for a body that never catches the
    cancellation signal, the handshake cannot get stuck: in every reachable
    state in which the process has not stopped and the caller has a call in
    progress or still to make, the caller or the worker can take a step. *)
Theorem no_lost_wakeup nd (b : stmt Y) sc es s :
  transparent b = true -> handshake es = true ->
  exec nd es (init result0 b sc) = Some s ->
  halted s = None -> caller_done s = false ->
  exists s', sched nd s = Some s'.
Proof.
  intros Hb He X Hh Hd.
  assert (R : reach nd false (init result0 b sc) s)
    by (eapply exec_reach; eauto).
  destruct (reach_handshake R) as (T & _).
  destruct (reach_handshake_more R) as (_ & _ & W & J).
  specialize (J Hb).
  destruct (reach_any R) as (M & _).
  clear R X He.
  destruct s as [q g r m c scr w lg pb h].
  unfold mutex_ok, turn_ok, wake_ok, join_ok, caller_done, sched, step,
    step_caller, run in *; simpl in *. subst h.
  destruct c as [[]| |[]|[]|]; simpl in *;
    try (destruct scr as [|[] ?]; simpl in *);
    try discriminate;
    try (destruct (get nd _); eexists; reflexivity);
    try (eexists; reflexivity).
  all: destruct w as [| |[]|[]|]; simpl in *;
    try (eexists; reflexivity);
    try apply coroutine_total;
    try (destruct q; eexists; reflexivity);
    intuition (try discriminate; subst; simpl in *; try discriminate;
               try (eexists; reflexivity)).
  all: try (unfold user, get; simpl; destruct g, nd; eexists; reflexivity).
  all: try (destruct q, nd; eexists; reflexivity).
Qed.

(** ** How long the coroutine stays alive *)

Lemma done_ok_step nd t (vs : list Y) s s' :
  step nd t s = Some s' -> mutex_ok s -> turn_ok s -> order_ok vs s ->
  done_ok (length vs) s -> done_ok (length vs) s'.
Proof.
  intros H M T O I. change (fire nd (Step t) s = Some s') in H.
  destruct s as [q g r m c sc w lg pb h].
  unfold mutex_ok, turn_ok, order_ok, count_ok, done_ok in *; simpl in *.
  destruct t; crush_step H; simpl in *; split_pcs; simpl in *;
    try discriminate;
    intuition (try discriminate; try congruence; try lia;
               subst; simpl in *; try discriminate; try lia).
  all: try (destruct g; simpl in *; lia).
  all: destruct q; [tauto|].
  all: repeat match goal with
       | H : false = false -> _ |- _ => specialize (H eq_refl)
       end.
  all: subst vs; rewrite app_nil_r, length_rev; lia.
Qed.

Lemma reach_done nd (b : stmt Y) sc s :
  straight b = true -> reach nd false (init result0 b sc) s ->
  done_ok (length (yields_of b)) s.
Proof.
  intros Hb R. induction R as [|s e s' R IH A F].
  - unfold done_ok; simpl. discriminate.
  - destruct (reach_any R) as (M & _).
    destruct (reach_handshake R) as (T & _ & O).
    destruct e as [t|t]; [|discriminate A]. simpl in F.
    eapply done_ok_step; eauto.
Qed.

Lemma alive_count nd (b : stmt Y) sc es s :
  straight b = true -> handshake es = true ->
  exec nd es (init result0 b sc) = Some s -> caller s = CUser ->
  (operator_bool s = true <-> resumes (log s) < length (yields_of b)).
Proof.
  intros Hb He X C.
  assert (R : reach nd false (init result0 b sc) s)
    by (eapply exec_reach; eauto).
  assert (Dn : done_ok (length (yields_of b)) s)
    by (eapply reach_done; eauto).
  destruct (reach_handshake R) as (_ & _ & O).
  destruct (O Hb) as (_ & _ & D1 & _).
  edestruct user_code_facts with (nd:=nd) (b:=b) (sc:=sc) (es:=es)
    as [_ U]; eauto.
  unfold operator_bool, done_ok in *. rewrite C in *. simpl in *.
  destruct U as [(v & k & older & W & Q & G & Re & P & N) | (W & Q & G)].
  - rewrite Q. simpl. split; [intros _|reflexivity].
    specialize (D1 Q).
    assert (L : length (rev (published s) ++ pending (worker s))
                = length (yields_of b)) by (rewrite D1; reflexivity).
    rewrite length_app, length_rev in L. lia.
  - rewrite Q. simpl. split; [discriminate|].
    specialize (Dn Q eq_refl). lia.
Qed.

(** X9.  Without spurious wake-up, for a body made of N yields and in the
    caller's own code, the liveness check is true exactly while fewer than N
    [resume] calls have returned: the loop
    [while (coroutine) { ...; coroutine.resume(); }] makes N iterations. *)
Theorem alive_while_yields_left nd (b : stmt Y) sc es s :
  straight b = true -> handshake es = true ->
  exec nd es (init result0 b sc) = Some s -> caller s = CUser ->
  (operator_bool s = true <-> resumes (log s) < length (yields_of b)).
Proof. intros. eapply alive_count; eauto. Qed.

Lemma play_alive nd (kb : list (frame Y)) :
  forall vs v k, straight_stack k = true -> yields_of_stack k = vs ->
  forall sc lg pb,
  exists fuel lg' pb' v',
    drive nd fuel
      (mkState false true v None CUser (alive_resume (S (length vs)) ++ sc)
               (WYield YBlocked v (k ++ kb)) lg pb None)
    = mkState false true v' None (CResume RBlocked) sc
              (WBody (Exec Skip) kb) lg' pb' None
    /\ alives lg' = alives lg ++ repeat true (S (length vs))
    /\ resumes lg' = resumes lg + length vs.
Proof.
  induction vs as [|v2 rest IH]; intros v k Hk Hy sc lg pb.
  - edestruct burst
      with (nd:=nd) (kb:=kb) (n:=S (1 + weight_stack k)) (b:=@Skip Y) (k:=k)
           (cb:=CResume RBlocked) (g:=true) (r:=v) (sc:=sc)
           (lg:=EvAlive true :: lg) (pb:=pb) as [fuel R];
      auto; [right; reflexivity|].
    simpl in R. rewrite Hy in R. simpl in R.
    exists (9 + fuel), (EvAlive true :: lg), pb, v.
    rewrite drive_add. split; [exact R|].
    simpl. split; [reflexivity | lia].
  - assert (E9 :
      drive nd 9
        (mkState false true v None CUser
           (alive_resume (S (length (v2 :: rest))) ++ sc)
           (WYield YBlocked v (k ++ kb)) lg pb None)
      = mkState false true v None (CResume RBlocked)
          (alive_resume (S (length rest)) ++ sc)
          (WBody (Exec Skip) (k ++ kb)) (EvAlive true :: lg) pb None)
      by reflexivity.
    remember (alive_resume (S (length rest)) ++ sc) as sc1 eqn:Hsc.
    edestruct burst
      with (nd:=nd) (kb:=kb) (n:=S (1 + weight_stack k)) (b:=@Skip Y) (k:=k)
           (cb:=CResume RBlocked) (g:=true) (r:=v) (sc:=sc1)
           (lg:=EvAlive true :: lg) (pb:=pb) as [fuel R];
      auto; [right; reflexivity|].
    simpl in R. rewrite Hy in R. simpl in R.
    destruct R as (k' & Hk' & Hy' & R). subst sc1.
    destruct (IH v2 k' Hk' Hy' sc (EvResume :: EvAlive true :: lg) (v2 :: pb))
      as (fuel' & lg' & pb' & v' & D & G & N).
    exists (9 + (fuel + fuel')), lg', pb', v'.
    rewrite drive_add, E9, drive_add, R, D. split; [reflexivity|].
    simpl in G, N. rewrite <- app_assoc in G. simpl in G.
    split; [exact G | simpl; lia].
Qed.

Lemma alives_repeat_snoc n :
  repeat true n ++ [true] = true :: repeat true n.
Proof. induction n; simpl; congruence. Qed.

Lemma alive_total nd (b : stmt Y) :
  straight b = true ->
  exists fuel f,
    drive nd fuel
      (init result0 b (alive_resume (length (yields_of b)) ++ [IsAlive])) = f
    /\ alives (log f) = repeat true (length (yields_of b)) ++ [false]
    /\ resumes (log f) = length (yields_of b)
    /\ caller f = CUser /\ script f = [] /\ worker f = WDone
    /\ quit f = true /\ halted f = None.
Proof.
  intros Hb.
  assert (E3 : forall sc0,
    drive nd 3 (init result0 b sc0)
    = mkState false false result0 None (CCtor CtorBlocked) sc0
        (WBody (Exec b) ([] ++ [])) [] [] None) by reflexivity.
  destruct (yields_of b) as [|v rest] eqn:Hy.
  - edestruct burst
      with (nd:=nd) (kb:=@nil (frame Y)) (n:=S (weight b + 0)) (b:=b)
           (k:=@nil (frame Y)) (cb:=CCtor CtorBlocked) (g:=false)
           (r:=result0) (sc:=[IsAlive]) (lg:=@nil (cev Y)) (pb:=@nil Y)
      as [fuel R];
      try (left; reflexivity); try (simpl; lia); auto.
    simpl yields_of_stack in R. rewrite app_nil_r, Hy in R. simpl in R.
    eexists (3 + (fuel + (8 + 1))), _. split.
    + rewrite drive_add. simpl length. simpl app at 1.
      rewrite E3, drive_add. simpl app. rewrite R.
      rewrite drive_add.
      erewrite run_end_drive by (left; reflexivity). reflexivity.
    + simpl. repeat split; reflexivity.
  - edestruct burst
      with (nd:=nd) (kb:=@nil (frame Y)) (n:=S (weight b + 0)) (b:=b)
           (k:=@nil (frame Y)) (cb:=CCtor CtorBlocked) (g:=false)
           (r:=result0) (sc:=alive_resume (S (length rest)) ++ [IsAlive])
           (lg:=@nil (cev Y)) (pb:=@nil Y)
      as [fuel R];
      try (left; reflexivity); try (simpl; lia); auto.
    simpl yields_of_stack in R. rewrite app_nil_r, Hy in R.
    destruct R as (k' & Hk' & Hy' & R).
    edestruct play_alive with (nd:=nd) (kb:=@nil (frame Y)) (vs:=rest) (v:=v)
      (k:=k') (sc:=[IsAlive])
      (lg:=ret_log (CCtor CtorBlocked) (@nil (cev Y))) (pb:=[v])
      as (fuel' & lg' & pb' & v' & D & G & N); auto.
    eexists (3 + (fuel + (fuel' + (8 + 1)))), _. split.
    + rewrite drive_add. change (length (v :: rest)) with (S (length rest)).
      rewrite E3, drive_add, R, drive_add, D, drive_add.
      erewrite run_end_drive by (right; reflexivity). reflexivity.
    + simpl in *. repeat split; auto; try lia.
      rewrite G. reflexivity.
Qed.

(** X10.  The loop [while (coroutine) coroutine.resume();] on a body made of
    N yields runs to completion: the liveness check is true N times, then
    false, N [resume] calls have returned, and the worker has finished. *)
Theorem alive_loop_runs nd (b : stmt Y) :
  straight b = true ->
  exists fuel f,
    drive nd fuel
      (init result0 b (alive_resume (length (yields_of b)) ++ [IsAlive])) = f
    /\ alives (log f) = repeat true (length (yields_of b)) ++ [false]
    /\ resumes (log f) = length (yields_of b)
    /\ caller f = CUser /\ script f = [] /\ worker f = WDone
    /\ quit f = true /\ halted f = None.
Proof. apply alive_total. Qed.

(** X2.  Without spurious wake-up the caller and the worker are never in
    user code at the same time: the caller is between two calls only while
    the worker is suspended inside [yield] or has finished. *)
Theorem alternation_without_spurious_wakeup nd (b : stmt Y) sc es s :
  handshake es = true -> exec nd es (init result0 b sc) = Some s ->
  caller_in_user_code s && worker_in_user_code s = false.
Proof. intros. eapply handshake_alternation; eauto. Qed.

End MoreProofs.

(** * [Coroutine<void>] against the general class *)

Section VoidProofs.

Implicit Types (s : state unit) (e : event) (t : tid).

(** ** The specialisation and the general class *)

(** Erasing the slot turns every step of the general class, for a value
    type without information, into a step of [Coroutine<void>] by the same
    thread, or into no step at all when the step only writes the slot
    (lines 52, 53, 43, 120) or is a [get] that returns; the one step without
    counterpart is a [get] whose assertion fires. *)
Lemma erase_fire nd e s s' :
  fire nd e s = Some s' ->
  erase s' = erase s
  \/ Void.fire nd e (erase s) = Some (erase s')
  \/ (nd = false /\ canGetValue s = false /\ caller s = CUser
      /\ exists sc, script s = Get :: sc
                    /\ s' = stop AssertionFailed (set_script sc s)).
Proof.
  intros H. destruct s as [q g r m c sc w lg pb h]. simpl in *.
  destruct e as [[]|[]]; crush_step H; simpl in *;
    try (left; reflexivity);
    try (right; left; reflexivity);
    try (right; right; repeat split; eauto; fail).
  all: try (destruct g; simpl in *;
            first [left; reflexivity
                  | right; right; destruct nd; try discriminate;
                    repeat split; eauto; fail]).
  all: split_pcs; simpl in *;
    first [left; reflexivity
          | right; left; reflexivity
          | right; left; unfold Void.step, Void.run, Void.coroutine; simpl;
            match goal with H : catches _ _ = _ |- _ => rewrite H end;
            reflexivity].
Qed.

Lemma erase_step_back nd e s vs' :
  get_free (script s) = true -> Void.fire nd e (erase s) = Some vs' ->
  exists s',
    exec nd (repeat (Step (thread_of e)) (slot_steps (thread_of e) s) ++ [e]) s
    = Some s'
    /\ erase s' = vs' /\ get_free (script s') = true.
Proof.
  intros G H. destruct s as [q g r m c sc w lg pb h].
  unfold erase in H. simpl in *.
  destruct e as [[]|[]]; simpl.
  - destruct c as [[]| |[]|[]|]; simpl in *;
      try (destruct sc as [|[] sc]; simpl in *; try discriminate);
      destruct w as [| |[]|[]|]; crush_void H; simpl;
      try (eexists; split; [reflexivity | split; [reflexivity | assumption]]).
  - destruct w as [| |[]|[]|]; simpl in *;
      destruct c as [[]| |[]|[]|]; crush_void H; simpl;
      try (eexists; split; [reflexivity | split; [reflexivity | assumption]]).
    all: unfold step, run, coroutine; simpl;
      match goal with H : catches _ _ = _ |- _ => rewrite H end;
      (eexists; split; [reflexivity | split; [reflexivity | assumption]]).
  - destruct c as [[]| |[]|[]|]; crush_void H; simpl;
      (eexists; split; [reflexivity | split; [reflexivity | assumption]]).
  - destruct w as [| |[]|[]|]; crush_void H; simpl;
      (eexists; split; [reflexivity | split; [reflexivity | assumption]]).
Qed.

Lemma erase_embed_script vsc : erase_script (embed_script vsc) = vsc.
Proof. induction vsc as [|[] ? IH]; simpl; congruence. Qed.

Lemma get_free_embed vsc : get_free (embed_script vsc) = true.
Proof. induction vsc as [|[] ? IH]; simpl; auto. Qed.

Lemma handshake_repeat t n : handshake (repeat (Step t) n) = true.
Proof. induction n; simpl; auto. Qed.

Lemma erase_exec_back nd ves :
  forall s0 vs, get_free (script s0) = true ->
    Void.exec nd ves (erase s0) = Some vs ->
    exists es s,
      exec nd es s0 = Some s /\ erase s = vs
      /\ (handshake ves = true -> handshake es = true).
Proof.
  induction ves as [|e ves IH]; intros s0 vs G X.
  - simpl in X. injection X as <-. exists [], s0. auto.
  - simpl in X. destruct (Void.fire nd e (erase s0)) as [vs1|] eqn:F;
      [|discriminate].
    destruct (erase_step_back nd e s0 G F) as (s1 & E1 & <- & G1).
    destruct (IH s1 vs G1 X) as (es & s & E & Er & Hs).
    exists ((repeat (Step (thread_of e)) (slot_steps (thread_of e) s0) ++ [e])
            ++ es), s.
    split; [rewrite exec_app, E1; exact E|]. split; [exact Er|].
    intros Hh. simpl in Hh. apply andb_true_iff in Hh. destruct Hh as [Ha Hh].
    unfold handshake in *. rewrite !forallb_app.
    fold (handshake (repeat (Step (thread_of e)) (slot_steps (thread_of e) s0))).
    rewrite handshake_repeat. simpl. rewrite Ha. simpl. auto.
Qed.

Lemma erase_init (b : stmt unit) vsc :
  erase (init tt b (embed_script vsc)) = Void.init b vsc.
Proof. unfold erase, init; simpl. rewrite erase_embed_script. reflexivity. Qed.

(** X12.  Every execution of [Coroutine<void>] is the erasure of an
    execution of the general class, at a value type without information,
    driven by the same calls, and one without spurious wake-up is the
    erasure of one without: the specialisation has no behaviour of its
    own. *)
Theorem void_refines_general nd (b : stmt unit) vsc ves vs :
  Void.exec nd ves (Void.init b vsc) = Some vs ->
  exists es s,
    exec nd es (init tt b (embed_script vsc)) = Some s
    /\ erase s = vs
    /\ (handshake ves = true -> handshake es = true).
Proof.
  intros X. apply erase_exec_back with (ves:=ves).
  - apply get_free_embed.
  - rewrite erase_init. exact X.
Qed.

Lemma fire_get_free nd e s s' :
  fire nd e s = Some s' -> get_free (script s) = true ->
  get_free (script s') = true.
Proof.
  intros H G. destruct s as [q g r m c sc w lg pb h]. simpl in *.
  destruct e as [[]|[]]; crush_step H; simpl in *; auto; discriminate.
Qed.

Lemma erase_exec nd es :
  forall s s', get_free (script s) = true -> exec nd es s = Some s' ->
    exists ves,
      Void.exec nd ves (erase s) = Some (erase s')
      /\ (handshake es = true -> handshake ves = true).
Proof.
  induction es as [|e es IH]; intros s s' G X.
  - simpl in X. injection X as <-. exists []. auto.
  - simpl in X. destruct (fire nd e s) as [s1|] eqn:F; [|discriminate].
    destruct (IH s1 s' (fire_get_free nd e s F G) X) as (ves & V & Hs).
    destruct (erase_fire nd e s F) as [E | [E | E]].
    + exists ves. rewrite <- E. split; [exact V|].
      intros Hh. simpl in Hh. apply andb_true_iff in Hh. tauto.
    + exists (e :: ves). simpl. rewrite E. split; [exact V|].
      intros Hh. simpl in Hh. apply andb_true_iff in Hh.
      destruct Hh as [Ha Hh]. rewrite Ha. simpl. auto.
    + exfalso. destruct E as (_ & _ & _ & sc & Hs' & _).
      rewrite Hs' in G. discriminate.
Qed.

(** X11.  Every execution of the general class at a value type without
    information, driven by calls other than [get], is after erasure of the
    slot an execution of [Coroutine<void>] driven by the same calls; steps
    that only write the slot (lines 52, 53, 43, 120) disappear, and an
    execution without spurious wake-up stays one. *)
Theorem general_erases_to_void nd (b : stmt unit) vsc es s :
  exec nd es (init tt b (embed_script vsc)) = Some s ->
  exists ves,
    Void.exec nd ves (Void.init b vsc) = Some (erase s)
    /\ (handshake es = true -> handshake ves = true).
Proof.
  intros X. rewrite <- erase_init.
  apply erase_exec with (es:=es); [apply get_free_embed | exact X].
Qed.

Lemma caller_blocked_erase nd s :
  step nd Caller s = None -> Void.step nd Caller (erase s) = None.
Proof.
  intros H. destruct s as [q g r m c sc w lg pb h].
  unfold step, Void.step, erase in *; simpl in *.
  destruct h; [reflexivity|].
  unfold step_caller, Void.step_caller in *; simpl in *.
  destruct c as [[]| |[]|[]|]; simpl in *;
    unfold lock, Void.lock, user, Void.user, get in *; simpl in *;
    try discriminate; try reflexivity;
    try (destruct m; simpl in *; first [discriminate | reflexivity]);
    try (destruct w as [| |[]|[]|]; simpl in *;
         first [discriminate | reflexivity]).
  - destruct sc as [|[] sc]; simpl in *; try discriminate; try reflexivity.
    destruct g, nd; discriminate.
  - destruct q, nd; discriminate.
Qed.

Lemma sched_erase nd s s' :
  get_free (script s) = true -> sched nd s = Some s' ->
  erase s' = erase s \/ Void.sched nd (erase s) = Some (erase s').
Proof.
  intros G H. unfold sched in H. unfold Void.sched.
  destruct (step nd Caller s) as [s1|] eqn:C.
  - injection H as ->.
    destruct (erase_fire nd (Step Caller) s C) as [E | [E | E]].
    + left; exact E.
    + right. simpl in E. rewrite E. reflexivity.
    + exfalso. destruct E as (_ & _ & _ & sc & Hs & _).
      rewrite Hs in G. discriminate.
  - rewrite (caller_blocked_erase nd s C).
    destruct (erase_fire nd (Step Worker) s H) as [E | [E | E]].
    + left; exact E.
    + right. exact E.
    + exfalso. destruct E as (_ & _ & _ & sc & Hs & _).
      rewrite Hs in G. discriminate.
Qed.

Lemma sched_get_free nd s s' :
  sched nd s = Some s' -> get_free (script s) = true ->
  get_free (script s') = true.
Proof.
  unfold sched. intros H G.
  destruct (step nd Caller s) as [s1|] eqn:C.
  - injection H as ->. eapply fire_get_free with (e:=Step Caller); eauto.
  - eapply fire_get_free with (e:=Step Worker); eauto.
Qed.

Lemma drive_erase nd fuel :
  forall s, get_free (script s) = true ->
    exists fuel', Void.drive nd fuel' (erase s) = erase (drive nd fuel s).
Proof.
  induction fuel as [|n IH]; intros s G; simpl.
  - exists 0. reflexivity.
  - destruct (sched nd s) as [s1|] eqn:Sc; [|exists 0; reflexivity].
    destruct (IH s1 (sched_get_free nd s Sc G)) as [f1 D].
    destruct (sched_erase nd s G Sc) as [E|E].
    + exists f1. rewrite <- E. exact D.
    + exists (S f1). simpl. rewrite E. exact D.
Qed.

(** ** What carries over to the specialisation *)

Lemma erase_cpc_user c : erase_cpc c = Void.CUser -> c = CUser.
Proof. destruct c as [[]| |[]|[]|]; simpl; intros H; congruence. Qed.

Lemma erase_cpc_destroyed c : erase_cpc c = Void.CDestroyed -> c = CDestroyed.
Proof. destruct c as [[]| |[]|[]|]; simpl; intros H; congruence. Qed.

Lemma erase_resumes l : Void.resumes (erase_log l) = resumes l.
Proof. induction l as [|[] l IH]; simpl; congruence. Qed.

Lemma erase_alives l : Void.alives (erase_log l) = alives l.
Proof. induction l as [|[] l IH]; simpl; congruence. Qed.

Lemma erase_alive_resume n sc :
  erase_script (alive_resume n ++ sc) = Void.alive_resume n ++ erase_script sc.
Proof. induction n as [|n IH]; simpl; congruence. Qed.

Lemma embed_alive_free n : get_free (alive_resume n ++ [IsAlive]) = true.
Proof. induction n as [|n IH]; simpl; auto. Qed.

(** X13.  [Coroutine<void>] without spurious wake-up: the caller and the
    worker are never in user code together, and whenever the caller is in
    its own code the mutex is free and the liveness check is exact, true
    with the worker suspended inside [yield], false with the thread function
    returned. *)
Theorem void_handshake nd (b : stmt unit) vsc ves vs :
  handshake ves = true -> Void.exec nd ves (Void.init b vsc) = Some vs ->
  Void.caller_in_user_code vs && Void.worker_in_user_code vs = false
  /\ (Void.caller vs = Void.CUser ->
      Void.mutex vs = None
      /\ ((exists k, Void.worker vs = Void.WYield Void.YBlocked k
                     /\ Void.operator_bool vs = true)
          \/ (Void.worker vs = Void.WDone /\ Void.operator_bool vs = false))).
Proof.
  intros Hh X.
  rewrite <- erase_init in X.
  destruct (erase_exec_back nd ves (init tt b (embed_script vsc))
              (get_free_embed vsc) X) as (es & s & E & <- & Hs).
  specialize (Hs Hh). split.
  - assert (A : caller_in_user_code s && worker_in_user_code s = false)
      by (eapply handshake_alternation; eauto).
    unfold Void.caller_in_user_code, Void.worker_in_user_code,
      caller_in_user_code, worker_in_user_code, erase in *; simpl.
    destruct (caller s) as [[]| |[]|[]|]; simpl in *; try reflexivity.
    destruct (worker s) as [| |[]|[]|]; simpl in *; auto.
  - intros C. unfold erase in C; simpl in C. apply erase_cpc_user in C.
    edestruct user_code_facts with (nd:=nd) (b:=b) (es:=es) (s:=s)
      as [M U]; eauto.
    unfold erase, Void.operator_bool; simpl. split; [exact M|].
    destruct U as [(v & k & older & W & Q & _) | (W & Q & _)];
      rewrite W, Q; simpl; [left; exists k | right]; auto.
Qed.

(** X14.  [Coroutine<void>] without spurious wake-up, for a body made of N
    calls to [yield]: in the caller's own code the liveness check is true
    exactly while fewer than N [resume] calls have returned. *)
Theorem void_alive_while_yields_left nd (b : stmt unit) vsc ves vs :
  straight b = true -> handshake ves = true ->
  Void.exec nd ves (Void.init b vsc) = Some vs ->
  Void.caller vs = Void.CUser ->
  (Void.operator_bool vs = true
   <-> Void.resumes (Void.log vs) < length (yields_of b)).
Proof.
  intros Hb Hh X C.
  rewrite <- erase_init in X.
  destruct (erase_exec_back nd ves (init tt b (embed_script vsc))
              (get_free_embed vsc) X) as (es & s & E & <- & Hs).
  specialize (Hs Hh).
  unfold erase in *; simpl in *. apply erase_cpc_user in C.
  rewrite erase_resumes. unfold Void.operator_bool; simpl.
  change (negb (quit s)) with (operator_bool s).
  eapply alive_count; eauto.
Qed.

(** X15.  [Coroutine<void>]: the loop
    [while (coroutine) coroutine.resume();] on a body made of N calls to
    [yield] runs to completion with exactly N iterations: the liveness check
    is true N times, then false, and the worker has finished. *)
Theorem void_alive_loop_runs nd (b : stmt unit) :
  straight b = true ->
  exists fuel f,
    Void.drive nd fuel
      (Void.init b (Void.alive_resume (length (yields_of b))
                    ++ [Void.IsAlive])) = f
    /\ Void.alives (Void.log f) = repeat true (length (yields_of b)) ++ [false]
    /\ Void.resumes (Void.log f) = length (yields_of b)
    /\ Void.caller f = Void.CUser /\ Void.script f = []
    /\ Void.worker f = Void.WDone
    /\ Void.quit f = true /\ Void.halted f = None.
Proof.
  intros Hb.
  edestruct alive_total with (result0:=tt) (nd:=nd) (b:=b)
    as (fuel & f & D & A & N & C & S & W & Q & H); eauto.
  destruct (drive_erase nd fuel
              (init tt b (alive_resume (length (yields_of b)) ++ [IsAlive]))
              (embed_alive_free _)) as [fuel' D'].
  exists fuel', (erase f). rewrite D in D'. split.
  - rewrite <- D'. unfold erase, init, Void.init; simpl.
    rewrite erase_alive_resume. reflexivity.
  - unfold erase; simpl. rewrite erase_alives, erase_resumes, A, N, C, S, W.
    simpl. repeat split; auto.
Qed.

(** X16.  In every execution of [Coroutine<void>], spurious wake-ups
    included, [quit] once set stays set, and once the destructor has
    returned the thread function has returned and [quit] is set. *)
Theorem void_quit_and_join nd (b : stmt unit) vsc ves vs :
  Void.exec nd ves (Void.init b vsc) = Some vs ->
  (Void.caller vs = Void.CDestroyed ->
     Void.worker vs = Void.WDone /\ Void.quit vs = true)
  /\ (forall ves' vs', Void.exec nd ves' vs = Some vs' ->
        Void.quit vs = true -> Void.quit vs' = true).
Proof.
  intros X. split.
  - rewrite <- erase_init in X.
    destruct (erase_exec_back nd ves (init tt b (embed_script vsc))
                (get_free_embed vsc) X) as (es & s & E & <- & _).
    unfold erase; simpl. intros C. apply erase_cpc_destroyed in C.
    assert (R : reach nd true (init tt b (embed_script vsc)) s)
      by (eapply exec_reach; eauto; apply allowed_any).
    destruct (reach_any R) as (_ & _ & D & _).
    destruct (reach_any_more R) as (_ & _ & _ & J).
    unfold dtor_ok, joined_ok in *. rewrite C in *.
    rewrite (J eq_refl). simpl. auto.
  - clear X. intros ves'. revert vs.
    induction ves' as [|e ves' IH]; intros vs vs' X Q.
    + simpl in X. injection X as <-. exact Q.
    + simpl in X. destruct (Void.fire nd e vs) as [vs1|] eqn:F;
        [|discriminate].
      apply (IH vs1 vs' X).
      destruct vs as [q m c sc w lg h]. simpl in *. subst q.
      destruct e as [[]|[]]; crush_void F; reflexivity.
Qed.

(** X17.  [Coroutine<void>::resume] with assertions compiled out, called
    while [quit] is set and the mutex free: the call returns after four
    caller steps without notify or wait; [quit], the mutex and the worker are
    unchanged. *)
Theorem void_resume_after_quit vs sc :
  Void.halted vs = None -> Void.caller vs = Void.CUser ->
  Void.script vs = Void.Resume :: sc ->
  Void.quit vs = true -> Void.mutex vs = None ->
  Void.exec true (repeat (Step Caller) 4) vs
  = Some (Void.mkState (Void.quit vs) (Void.mutex vs) Void.CUser sc
            (Void.worker vs) (Void.EvResume :: Void.log vs) None).
Proof.
  intros Hh Hc Hs Hq Hm.
  destruct vs as [q m c scr w lg h]. simpl in *. subst. reflexivity.
Qed.




(** *** An error of the body *)

Lemma sched_erase_ok nd s s' :
  sched nd s = Some s' -> halted s' <> Some AssertionFailed ->
  erase s' = erase s \/ Void.sched nd (erase s) = Some (erase s').
Proof.
  intros H A. unfold sched in H. unfold Void.sched.
  destruct (step nd Caller s) as [s1|] eqn:C.
  - injection H as ->.
    destruct (erase_fire nd (Step Caller) s C) as [E | [E | E]].
    + left; exact E.
    + right. simpl in E. rewrite E. reflexivity.
    + exfalso. destruct E as (_ & _ & _ & sc & _ & ->). apply A. reflexivity.
  - rewrite (caller_blocked_erase nd s C).
    destruct (erase_fire nd (Step Worker) s H) as [E | [E | E]].
    + left; exact E.
    + right. exact E.
    + exfalso. destruct E as (_ & _ & _ & sc & _ & ->). apply A. reflexivity.
Qed.

Lemma drive_halted nd fuel s h : halted s = Some h -> drive nd fuel s = s.
Proof.
  intros H. destruct fuel as [|n]; [reflexivity|]. simpl.
  unfold sched, step. rewrite H. reflexivity.
Qed.

Lemma drive_erase_ok nd fuel :
  forall s, halted (drive nd fuel s) <> Some AssertionFailed ->
    exists fuel', Void.drive nd fuel' (erase s) = erase (drive nd fuel s).
Proof.
  induction fuel as [|n IH]; intros s A; simpl in *.
  - exists 0. reflexivity.
  - destruct (sched nd s) as [s1|] eqn:Sc; [|exists 0; reflexivity].
    destruct (IH s1 A) as [f1 D].
    assert (A1 : halted s1 <> Some AssertionFailed).
    { intros H1. apply A. rewrite (drive_halted nd n s1 H1). exact H1. }
    destruct (sched_erase_ok nd s Sc A1) as [E|E].
    + exists f1. rewrite <- E. exact D.
    + exists (S f1). simpl. rewrite E. exact D.
Qed.

Lemma erase_get_resume n sc :
  erase_script (get_resume n ++ sc) = repeat Void.Resume n ++ erase_script sc.
Proof. induction n as [|n IH]; simpl; congruence. Qed.

(** X19.  [Coroutine<void>]: an error raised by a body after N calls to
    [yield] (other than the cancellation signal) is not caught by the only
    handler of [run] (line 199) and terminates the process: the caller is
    left blocked in the constructor (N = 0) or in its N-th [resume], N - 1
    calls of [resume] have returned, and no step follows. *)
Theorem void_body_error_terminates nd (b : stmt unit) std tag vsc :
  straight b = true ->
  exists fuel f,
    Void.drive nd fuel
      (Void.init (Seq b (Throw std tag))
                 (repeat Void.Resume (length (yields_of b)) ++ vsc)) = f
    /\ Void.halted f = Some Terminated
    /\ Void.worker f = Void.WBody (Unwind (UserException std tag)) []
    /\ Void.caller f = match yields_of b with
                       | [] => Void.CCtor CtorBlocked
                       | _ :: _ => Void.CResume RBlocked
                       end
    /\ Void.script f = vsc
    /\ Void.resumes (Void.log f) = length (yields_of b) - 1
    /\ (forall e, Void.fire nd e f = None).
Proof.
  intros Hb.
  edestruct throwing_total with (result0:=tt) (nd:=nd) (b:=b) (std:=std)
    (tag:=tag) (sc:=embed_script vsc)
    as (fuel & f & D & H & W & C & Sc & Q & G & N & P); eauto.
  destruct (drive_erase_ok nd fuel
              (init tt (Seq b (Throw std tag))
                    (get_resume (length (yields_of b)) ++ embed_script vsc)))
    as [fuel' D'].
  { rewrite D. rewrite H. discriminate. }
  rewrite D in D'. exists fuel', (erase f). split.
  - rewrite <- D'. unfold erase, init, Void.init; simpl.
    rewrite erase_get_resume, erase_embed_script. reflexivity.
  - unfold erase; simpl. rewrite erase_resumes, H, W, C, Sc, N.
    rewrite erase_embed_script. repeat split; auto.
    + destruct (yields_of b); reflexivity.
    + intros [t|t]; reflexivity.
Qed.

End VoidProofs.

(** ** The further properties at sample programs *)

Lemma lock_discipline_witness :
  (mutex tour_in_yield = Some Caller
   <-> caller_holds (caller tour_in_yield) = true)
  /\ (mutex tour_in_yield = Some Worker
      <-> worker_holds (worker tour_in_yield) = true)
  /\ (forall e s', fire false e tour_in_yield = Some s' ->
        quit s' <> quit tour_in_yield
        \/ canGetValue s' <> canGetValue tour_in_yield
        \/ published s' <> published tour_in_yield ->
        exists t, e = Step t /\ mutex tour_in_yield = Some t
                  /\ mutex s' = Some t).
Proof.
  apply lock_discipline with (result0:=0) (b:=body_123)
    (sc:=[IsAlive; Get; Resume; IsAlive; Destroy])
    (es:=schedule_of false 7 start_tour).
  vm_compute; reflexivity.
Defined.

Lemma alternation_without_spurious_wakeup_witness :
  caller_in_user_code tour_waiting && worker_in_user_code tour_waiting = false.
Proof.
  apply alternation_without_spurious_wakeup with (result0:=0) (nd:=false)
    (b:=body_123) (sc:=[IsAlive; Get; Resume; IsAlive; Destroy])
    (es:=schedule_of false 23 start_tour);
    vm_compute; reflexivity.
Defined.

Lemma constructor_postcondition_witness :
  mutex tour_constructed = None
  /\ ((exists v k,
         worker tour_constructed = WYield YBlocked v k
         /\ quit tour_constructed = false
         /\ canGetValue tour_constructed = true
         /\ result tour_constructed = v /\ published tour_constructed = [v])
      \/ (worker tour_constructed = WDone /\ quit tour_constructed = true
          /\ canGetValue tour_constructed = false
          /\ published tour_constructed = [])).
Proof.
  apply constructor_postcondition with (result0:=0) (nd:=false)
    (b:=body_123) (sc:=[IsAlive; Get; Resume; IsAlive; Destroy])
    (es:=schedule_of false 12 start_tour);
    vm_compute; reflexivity.
Defined.

Lemma liveness_check_exact_witness :
  (operator_bool tour_resumed = true <-> suspended (worker tour_resumed) = true)
  /\ (operator_bool tour_resumed = false
      <-> finished (worker tour_resumed) = true)
  /\ canGetValue tour_resumed = operator_bool tour_resumed.
Proof.
  apply liveness_check_exact with (result0:=0) (nd:=false)
    (b:=body_123) (sc:=[IsAlive; Get; Resume; IsAlive; Destroy])
    (es:=schedule_of false 32 start_tour);
    vm_compute; reflexivity.
Defined.

Lemma one_yield_per_turn_witness :
  exists v k,
    worker tour_resumed = WYield YBlocked v k
    /\ length (published tour_resumed) = resumes (log tour_resumed) + 1
    /\ hd_error (published tour_resumed) = Some v
    /\ get false tour_resumed = Returned v.
Proof.
  apply one_yield_per_turn with (result0:=0)
    (b:=body_123) (sc:=[IsAlive; Get; Resume; IsAlive; Destroy])
    (es:=schedule_of false 32 start_tour);
    vm_compute; reflexivity.
Defined.

Lemma destroyed_means_joined_witness :
  worker tour_end = WDone /\ quit tour_end = true /\ mutex tour_end = None.
Proof.
  apply destroyed_means_joined with (result0:=0) (nd:=false)
    (b:=body_123) (sc:=[IsAlive; Get; Resume; IsAlive; Destroy])
    (es:=schedule_of false 100 start_tour);
    vm_compute; reflexivity.
Defined.


Lemma no_lost_wakeup_witness :
  exists s', sched false tour_waiting = Some s'.
Proof.
  apply no_lost_wakeup with (result0:=0)
    (b:=body_123) (sc:=[IsAlive; Get; Resume; IsAlive; Destroy])
    (es:=schedule_of false 23 start_tour);
    vm_compute; reflexivity.
Defined.

Lemma alive_while_yields_left_witness :
  operator_bool tour_resumed = true
  <-> resumes (log tour_resumed) < length (yields_of body_123).
Proof.
  apply alive_while_yields_left with (result0:=0) (nd:=false)
    (sc:=[IsAlive; Get; Resume; IsAlive; Destroy])
    (es:=schedule_of false 32 start_tour);
    vm_compute; reflexivity.
Defined.

Lemma alive_loop_runs_witness :
  exists fuel f,
    drive false fuel
      (init 0 body_123 (alive_resume (length (yields_of body_123))
                        ++ [IsAlive])) = f
    /\ alives (log f) = repeat true (length (yields_of body_123)) ++ [false]
    /\ resumes (log f) = length (yields_of body_123)
    /\ caller f = CUser /\ script f = [] /\ worker f = WDone
    /\ quit f = true /\ halted f = None.
Proof.
  apply alive_loop_runs. reflexivity.
Defined.

Lemma general_erases_to_void_witness :
  exists ves,
    Void.exec false ves
              (Void.init body_5 [Void.IsAlive; Void.Resume; Void.IsAlive;
                                 Void.Destroy])
    = Some (erase unit_resumed)
    /\ (handshake (schedule_of false 33 unit_start) = true ->
        handshake ves = true).
Proof.
  apply general_erases_to_void. vm_compute; reflexivity.
Defined.

Lemma void_refines_general_witness :
  exists es s,
    exec false es
         (init tt body_5
               (embed_script [Void.IsAlive; Void.Resume; Void.IsAlive;
                              Void.Destroy])) = Some s
    /\ erase s = void_resumed
    /\ (handshake (Void.schedule_of false 27 void_start) = true ->
        handshake es = true).
Proof.
  apply void_refines_general. vm_compute; reflexivity.
Defined.

Lemma void_handshake_witness :
  Void.caller_in_user_code void_resumed
  && Void.worker_in_user_code void_resumed = false
  /\ (Void.caller void_resumed = Void.CUser ->
      Void.mutex void_resumed = None
      /\ ((exists k, Void.worker void_resumed = Void.WYield Void.YBlocked k
                     /\ Void.operator_bool void_resumed = true)
          \/ (Void.worker void_resumed = Void.WDone
              /\ Void.operator_bool void_resumed = false))).
Proof.
  apply void_handshake with (nd:=false) (b:=body_5)
    (vsc:=[Void.IsAlive; Void.Resume; Void.IsAlive; Void.Destroy])
    (ves:=Void.schedule_of false 27 void_start);
    vm_compute; reflexivity.
Defined.

Lemma void_alive_while_yields_left_witness :
  Void.operator_bool void_resumed = true
  <-> Void.resumes (Void.log void_resumed) < length (yields_of body_5).
Proof.
  apply void_alive_while_yields_left with (nd:=false)
    (vsc:=[Void.IsAlive; Void.Resume; Void.IsAlive; Void.Destroy])
    (ves:=Void.schedule_of false 27 void_start);
    vm_compute; reflexivity.
Defined.

Lemma void_alive_loop_runs_witness :
  exists fuel f,
    Void.drive false fuel
      (Void.init body_5 (Void.alive_resume (length (yields_of body_5))
                         ++ [Void.IsAlive])) = f
    /\ Void.alives (Void.log f)
       = repeat true (length (yields_of body_5)) ++ [false]
    /\ Void.resumes (Void.log f) = length (yields_of body_5)
    /\ Void.caller f = Void.CUser /\ Void.script f = []
    /\ Void.worker f = Void.WDone
    /\ Void.quit f = true /\ Void.halted f = None.
Proof.
  apply void_alive_loop_runs. reflexivity.
Defined.

Lemma void_quit_and_join_witness :
  (Void.caller void_end = Void.CDestroyed ->
     Void.worker void_end = Void.WDone /\ Void.quit void_end = true)
  /\ (forall ves' vs', Void.exec false ves' void_end = Some vs' ->
        Void.quit void_end = true -> Void.quit vs' = true).
Proof.
  apply void_quit_and_join with (b:=body_5)
    (vsc:=[Void.IsAlive; Void.Resume; Void.IsAlive; Void.Destroy])
    (ves:=Void.schedule_of false 100 void_start).
  vm_compute; reflexivity.
Defined.

Lemma void_resume_after_quit_witness :
  Void.exec true (repeat (Step Caller) 4) void_finished
  = Some (Void.mkState (Void.quit void_finished) (Void.mutex void_finished)
            Void.CUser [Void.IsAlive] (Void.worker void_finished)
            (Void.EvResume :: Void.log void_finished) None).
Proof.
  apply void_resume_after_quit; reflexivity.
Defined.


Lemma void_body_error_terminates_witness :
  exists fuel f,
    Void.drive false fuel
      (Void.init (Seq body_5 (Throw true 7))
                 (repeat Void.Resume (length (yields_of body_5))
                  ++ [Void.Destroy])) = f
    /\ Void.halted f = Some Terminated
    /\ Void.worker f = Void.WBody (Unwind (UserException true 7)) []
    /\ Void.caller f = match yields_of body_5 with
                       | [] => Void.CCtor CtorBlocked
                       | _ :: _ => Void.CResume RBlocked
                       end
    /\ Void.script f = [Void.Destroy]
    /\ Void.resumes (Void.log f) = length (yields_of body_5) - 1
    /\ (forall e, Void.fire false e f = None).
Proof.
  apply void_body_error_terminates. reflexivity.
Defined.
